(** * DeepThink Canvas: the session orchestration core

    A shallow embedding of the step state machine of [src/App.tsx]
    (second revision, the one that uses [safeUUID]), of the key handler of
    [src/components/WorksheetRow.tsx], and of the timeout wrapper and the
    three service calls of [src/services/geminiService.ts].

    React state is threaded explicitly through the handlers.  An [async]
    handler is split at its [await]: the part before it is the handler
    proper, the part after it is a continuation that the event loop resumes
    when the awaited promise settles.  The calls in flight are part of the
    state, so that a late continuation meets whatever state the application
    has moved on to.  A handler reads the state of the render it was
    created in; React renders after every event, so that is the current
    state when the handler starts, while the continuation keeps what it
    had read before the [await] and writes through functional updates. *)

From Stdlib Require Import NArith ZArith Lia String Ascii List Bool Arith.
From Stdlib Require DecimalNat.
From stdpp Require Import base decidable option list numbers.
Import ListNotations.

Local Open Scope nat_scope.

(** ** JavaScript strings and arrays *)

Module Js.

(** A JavaScript string is a sequence of UTF-16 code units. *)
Abbreviation jsstring := (list N).

Definition js (s : string) : jsstring :=
  map N_of_ascii (list_ascii_of_string s).

(** [a === b] on strings. *)
Definition str_eqb (a b : jsstring) : bool := bool_decide (a = b).

(** WhiteSpace and LineTerminator code points of ECMAScript, the ones
    [String.prototype.trim] strips. *)
Definition isWhiteSpace (c : N) : bool :=
  ((0x9 <=? c) && (c <=? 0xD) || (c =? 0x20) || (c =? 0xA0) || (c =? 0x1680)
   || (0x2000 <=? c) && (c <=? 0x200A)
   || (c =? 0x2028) || (c =? 0x2029) || (c =? 0x202F) || (c =? 0x205F)
   || (c =? 0x3000) || (c =? 0xFEFF))%N.

Fixpoint trimStart (s : jsstring) : jsstring :=
  match s with
  | [] => []
  | c :: s' => if isWhiteSpace c then trimStart s' else s
  end.

Definition trimEnd (s : jsstring) : jsstring := rev (trimStart (rev s)).

Definition trim (s : jsstring) : jsstring := trimEnd (trimStart s).

(** [s.trim().length > 0] *)
Definition nonBlank (s : jsstring) : bool := 0 <? length (trim s).

(** [arr.slice(-n)]: the last [n] elements, all of them when there are
    fewer. *)
Definition slice_last {A} (n : nat) (arr : list A) : list A :=
  drop (length arr - n) arr.

(** [arr.join(sep)] on an array of strings. *)
Fixpoint join (sep : jsstring) (arr : list jsstring) : jsstring :=
  match arr with
  | [] => []
  | [x] => x
  | x :: rest => x ++ sep ++ join sep rest
  end.

(** [`${v}`] for a value of type [string | null]. *)
Definition show_nullable (v : option jsstring) : jsstring :=
  match v with
  | Some s => s
  | None => js "null"
  end.

End Js.
Import Js.

(** ** [src/types.ts] *)

Inductive RowStatus := Active | Analyzing | Completed | Locked.

#[global] Instance RowStatus_eq_dec : EqDecision RowStatus.
Proof. solve_decision. Defined.

(** [stepNumber] counts the steps from 1; an array holds fewer than 2^32
    elements, and up to there [+ 1] on a JavaScript number is exact.  The
    scores come from the service and are stored and shown as they are. *)
Record ReasoningRow := {
  id : jsstring;
  stepNumber : nat;
  content : jsstring;
  aiInterrogation : option jsstring;
  status : RowStatus;
  depthScore : option Z
}.

Inductive Difficulty := Junior | Senior | Staff | Principal.

Record Challenge := {
  challenge_id : jsstring;
  title : jsstring;
  description : jsstring;
  difficulty : Difficulty;
  context : jsstring
}.

Record SessionResult := {
  score : Z;
  summary : jsstring;
  strengths : list jsstring;
  weaknesses : list jsstring
}.

#[global] Instance Difficulty_eq_dec : EqDecision Difficulty.
Proof. solve_decision. Defined.

#[global] Instance Challenge_eq_dec : EqDecision Challenge.
Proof. solve_decision. Defined.

(** The object spreads of [App.tsx]: [{ ...r, content }],
    [{ ...r, status }] and the one that attaches a critique. *)
Definition with_content (c : jsstring) (r : ReasoningRow) : ReasoningRow :=
  {| id := id r; stepNumber := stepNumber r; content := c;
     aiInterrogation := aiInterrogation r; status := status r;
     depthScore := depthScore r |}.

Definition with_status (st : RowStatus) (r : ReasoningRow) : ReasoningRow :=
  {| id := id r; stepNumber := stepNumber r; content := content r;
     aiInterrogation := aiInterrogation r; status := st;
     depthScore := depthScore r |}.

(** ** [src/services/geminiService.ts] *)

Module GeminiService.

(** *** The event loop seen from one call

    A promise is described by when and how it settles; times are in
    milliseconds after the call. *)
Inductive Settlement (T : Type) :=
| Resolves (at_ms : N) (v : T)
| Rejects (at_ms : N)
| NeverSettles.
Arguments Resolves {T} at_ms v.
Arguments Rejects {T} at_ms.
Arguments NeverSettles {T}.

Section WithTimeout.
Context {T : Type}.

(** The promise built by [withTimeout]: [result] is the value it was
    resolved with, if any; [timer] tells whether the timer is still
    set. *)
Record Race := { result : option T; timer : bool }.

(** The three callbacks registered by [withTimeout]. *)
Inductive Callback :=
| TimerFires
| OnFulfilled (val : T)
| OnRejected.

(** [resolve(x)]: only the first call has an effect. *)
Definition resolve (x : T) (r : Race) : Race :=
  match result r with
  | None => {| result := Some x; timer := timer r |}
  | Some _ => r
  end.

Definition clearTimeout (r : Race) : Race :=
  {| result := result r; timer := false |}.

(** Running one callback.  A cleared timer never fires. *)
Definition run_callback (fallback : T) (r : Race) (cb : Callback) : Race :=
  match cb with
  | TimerFires =>
      if timer r then resolve fallback (clearTimeout r) else r
  | OnFulfilled val => resolve val (clearTimeout r)
  | OnRejected => resolve fallback (clearTimeout r)
  end.

Definition run_callbacks (fallback : T) (cbs : list Callback) (r : Race)
  : Race :=
  fold_left (run_callback fallback) cbs r.

(** [new Promise(...)] with [setTimeout] done. *)
Definition started : Race := {| result := None; timer := true |}.

Definition settle_callback (p : Settlement T) : list Callback :=
  match p with
  | Resolves _ v => [OnFulfilled v]
  | Rejects _ => [OnRejected]
  | NeverSettles => []
  end.

Definition settled_at (p : Settlement T) : option N :=
  match p with
  | Resolves t _ | Rejects t => Some t
  | NeverSettles => None
  end.

(** The order in which the event loop runs the callbacks: by time; when
    the promise settles in the very millisecond the timer is due,
    [promise_first] says which of the two the loop takes first. *)
Definition schedule (p : Settlement T) (ms : N) (promise_first : bool)
  : list Callback :=
  match settled_at p with
  | None => [TimerFires]
  | Some t =>
      if ((t <? ms) || ((t =? ms) && promise_first))%N
      then settle_callback p ++ [TimerFires]
      else TimerFires :: settle_callback p
  end.

(** What the caller of [withTimeout] receives; [None] would be a
    promise that stays pending for ever. *)
Definition withTimeout (p : Settlement T) (ms : N) (fallback : T)
    (promise_first : bool) : option T :=
  result (run_callbacks fallback (schedule p ms promise_first) started).

End WithTimeout.
Arguments Race : clear implicits.
Arguments Callback : clear implicits.

(** *** The outside world of one service call *)

(** [response.text] and what [JSON.parse] makes of it; the parsed value is
    taken at the type the code gives it. *)
Inductive Response (T : Type) :=
| NoText                 (* [response.text] is falsy *)
| BadJson                (* [JSON.parse] throws *)
| Json (data : T).
Arguments NoText {T}.
Arguments BadJson {T}.
Arguments Json {T} data.

Record World (T : Type) := {
  API_KEY : bool;                         (* [process.env.API_KEY] is truthy *)
  generateContent : Settlement (Response T);
  promise_first : bool
}.
Arguments API_KEY {T} _.
Arguments generateContent {T} _.
Arguments promise_first {T} _.

(** How an [async] function ends for its caller. *)
Inductive Completion (T : Type) :=
| Returns (v : T)
| Throws
| Pending.
Arguments Returns {T} v.
Arguments Throws {T}.
Arguments Pending {T}.

(** [getAI()]: [None] is the thrown "API Key not found". *)
Definition getAI {T} (w : World T) : option unit :=
  if API_KEY w then Some tt else None.

(** The body shared by the three anonymous [async] functions handed to
    [withTimeout]: await the response, parse it, fall back when it has no
    text. *)
Definition parsed {T} (fallback : T) (g : Settlement (Response T))
  : Settlement T :=
  match g with
  | Resolves t NoText => Resolves t fallback
  | Resolves t BadJson => Rejects t
  | Resolves t (Json data) => Resolves t data
  | Rejects t => Rejects t
  | NeverSettles => NeverSettles
  end.

Definition awaited {T} (r : option T) : Completion T :=
  match r with
  | Some v => Returns v
  | None => Pending
  end.

Definition FALLBACK_CHALLENGES : list Challenge :=
  [ {| challenge_id := js "1";
       title := js "Scale a Notification System";
       description := js "Design a notification service delivering 10M pushes/minute with <1s latency.";
       difficulty := Senior;
       context := js "High throughput, latency sensitive, fan-out problems. Consider broker choices, worker pools, and deduplication." |};
    {| challenge_id := js "2";
       title := js "Optimize LLM Inference";
       description := js "Optimize inference for a 70B parameter model on 8x A100 GPUs.";
       difficulty := Staff;
       context := js "GPU memory bandwidth, tensor parallelism, quantization (FP8 vs INT4), and KV cache management." |};
    {| challenge_id := js "3";
       title := js "Distributed Counter";
       description := js "Design a distributed counter that is strongly consistent and handles massive write contention.";
       difficulty := Principal;
       context := js "CAP theorem limits, CRDTs vs Global Locking, database sharding strategies, and conflict resolution." |} ].

Definition getSuggestedChallenges (w : World (list Challenge))
  : Completion (list Challenge) :=
  match getAI w with
  | None => Returns FALLBACK_CHALLENGES                    (* catch *)
  | Some _ =>
      awaited (withTimeout (parsed FALLBACK_CHALLENGES (generateContent w))
                 1500%N FALLBACK_CHALLENGES (promise_first w))
  end.

Record Analysis := { text : jsstring; analysis_depthScore : Z }.

Definition fallbackResponse : Analysis :=
  {| text := js "Can you elaborate on the specific trade-offs of this choice?";
     analysis_depthScore := 5 |}.

(** The prompt is built from the last three rows of [history]; the reply
    is the world's, whatever the prompt. *)
Definition recentHistory (history : list ReasoningRow) : list ReasoningRow :=
  slice_last 3 history.

Definition interrogateRow (w : World Analysis) (currentInput : jsstring)
    (history : list ReasoningRow) (challenge : Challenge)
  : Completion Analysis :=
  match getAI w with
  | None => Throws
  | Some _ =>
      awaited (withTimeout (parsed fallbackResponse (generateContent w))
                 4000%N fallbackResponse (promise_first w))
  end.

(** One entry of the transcript per row that is sent. *)
Definition transcriptPairs (rows : list ReasoningRow)
  : list (jsstring * option jsstring) :=
  map (fun r => (content r, aiInterrogation r)) (slice_last 20 rows).

Definition transcriptEntry (e : jsstring * option jsstring) : jsstring :=
  js "User: " ++ fst e ++ [10%N] ++ js "AI: " ++ show_nullable (snd e).

Definition transcript (rows : list ReasoningRow) : jsstring :=
  join [10%N; 10%N] (map transcriptEntry (transcriptPairs rows)).

Definition evaluationPrompt (rows : list ReasoningRow) (challenge : Challenge)
  : jsstring :=
  [10%N] ++ js "    Evaluate this session. Challenge: " ++ title challenge
    ++ js "." ++ [10%N] ++ js "    Transcript: " ++ transcript rows
    ++ [10%N] ++ js "    Return JSON." ++ [10%N] ++ js "  ".

Definition fallbackResult : SessionResult :=
  {| score := 0;
     summary := js "Could not generate report due to timeout or error.";
     strengths := [js "N/A"];
     weaknesses := [js "N/A"] |}.

Definition evaluateSession (w : World SessionResult)
    (rows : list ReasoningRow) (challenge : Challenge)
  : Completion SessionResult :=
  match getAI w with
  | None => Throws
  | Some _ =>
      awaited (withTimeout (parsed fallbackResult (generateContent w))
                 8000%N fallbackResult (promise_first w))
  end.

End GeminiService.
Import GeminiService.

(** ** [src/components/WorksheetRow.tsx] *)

Module WorksheetRow.

Inductive Key := Enter | OtherKey.

(** The textarea of a row is [disabled] when the row is locked. *)
Definition isLocked (row : ReasoningRow) : bool :=
  bool_decide (status row = Completed)
  || bool_decide (status row = Analyzing)
  || bool_decide (status row = Locked).

Definition isActive (row : ReasoningRow) : bool :=
  bool_decide (status row = Active).

(** [handleKeyDown], with the component's [onSubmit] property acting on
    a state of type [S]. *)
Definition handleKeyDown {S} (key : Key) (shiftKey : bool)
    (row : ReasoningRow) (onSubmit : jsstring -> S -> S) (s : S) : S :=
  match key with
  | Enter =>
      if negb shiftKey
      then (if nonBlank (content row) then onSubmit (id row) s else s)
      else s
  | OtherKey => s
  end.

End WorksheetRow.
Import WorksheetRow.

(** ** [src/App.tsx] *)

Module App.

(** What the continuation of [submitRow] keeps from before its [await]:
    the closure's [id] and [row], and the arguments of the call. *)
Record CritiqueCall := {
  call_id : jsstring;
  call_row : ReasoningRow;
  call_previousRows : list ReasoningRow;
  call_challenge : Challenge
}.

(** The arguments of the [evaluateSession] call of [finishSession]. *)
Record EvaluationCall := {
  call_validRows : list ReasoningRow;
  eval_challenge : Challenge
}.

(** The [useState] cells of [App], the alerts shown so far, and the
    calls in flight. *)
Record AppState := {
  apiKey : bool;
  challenges : list Challenge;
  activeChallenge : option Challenge;
  rows : list ReasoningRow;
  isLoading : bool;
  sessionResult : option SessionResult;
  initError : option jsstring;
  alerts : list jsstring;
  loadingChallenges : nat;
  analyzing : list CritiqueCall;
  grading : list EvaluationCall
}.

Definition setChallenges (v : list Challenge) (s : AppState) : AppState :=
  {| apiKey := apiKey s; challenges := v;
     activeChallenge := activeChallenge s; rows := rows s;
     isLoading := isLoading s; sessionResult := sessionResult s;
     initError := initError s; alerts := alerts s;
     loadingChallenges := loadingChallenges s; analyzing := analyzing s;
     grading := grading s |}.

Definition setActiveChallenge (v : option Challenge) (s : AppState)
  : AppState :=
  {| apiKey := apiKey s; challenges := challenges s;
     activeChallenge := v; rows := rows s;
     isLoading := isLoading s; sessionResult := sessionResult s;
     initError := initError s; alerts := alerts s;
     loadingChallenges := loadingChallenges s; analyzing := analyzing s;
     grading := grading s |}.

(** [setRows(prev => f(prev))]; [setRows(v)] is [setRows (fun _ => v)]. *)
Definition setRows (f : list ReasoningRow -> list ReasoningRow)
    (s : AppState) : AppState :=
  {| apiKey := apiKey s; challenges := challenges s;
     activeChallenge := activeChallenge s; rows := f (rows s);
     isLoading := isLoading s; sessionResult := sessionResult s;
     initError := initError s; alerts := alerts s;
     loadingChallenges := loadingChallenges s; analyzing := analyzing s;
     grading := grading s |}.

Definition setIsLoading (v : bool) (s : AppState) : AppState :=
  {| apiKey := apiKey s; challenges := challenges s;
     activeChallenge := activeChallenge s; rows := rows s;
     isLoading := v; sessionResult := sessionResult s;
     initError := initError s; alerts := alerts s;
     loadingChallenges := loadingChallenges s; analyzing := analyzing s;
     grading := grading s |}.

Definition setSessionResult (v : option SessionResult) (s : AppState)
  : AppState :=
  {| apiKey := apiKey s; challenges := challenges s;
     activeChallenge := activeChallenge s; rows := rows s;
     isLoading := isLoading s; sessionResult := v;
     initError := initError s; alerts := alerts s;
     loadingChallenges := loadingChallenges s; analyzing := analyzing s;
     grading := grading s |}.

Definition setInitError (v : option jsstring) (s : AppState) : AppState :=
  {| apiKey := apiKey s; challenges := challenges s;
     activeChallenge := activeChallenge s; rows := rows s;
     isLoading := isLoading s; sessionResult := sessionResult s;
     initError := v; alerts := alerts s;
     loadingChallenges := loadingChallenges s; analyzing := analyzing s;
     grading := grading s |}.

Definition alert (msg : jsstring) (s : AppState) : AppState :=
  {| apiKey := apiKey s; challenges := challenges s;
     activeChallenge := activeChallenge s; rows := rows s;
     isLoading := isLoading s; sessionResult := sessionResult s;
     initError := initError s; alerts := alerts s ++ [msg];
     loadingChallenges := loadingChallenges s; analyzing := analyzing s;
     grading := grading s |}.

Definition setLoadingChallenges (n : nat) (s : AppState) : AppState :=
  {| apiKey := apiKey s; challenges := challenges s;
     activeChallenge := activeChallenge s; rows := rows s;
     isLoading := isLoading s; sessionResult := sessionResult s;
     initError := initError s; alerts := alerts s;
     loadingChallenges := n; analyzing := analyzing s;
     grading := grading s |}.

Definition setAnalyzing (f : list CritiqueCall -> list CritiqueCall)
    (s : AppState) : AppState :=
  {| apiKey := apiKey s; challenges := challenges s;
     activeChallenge := activeChallenge s; rows := rows s;
     isLoading := isLoading s; sessionResult := sessionResult s;
     initError := initError s; alerts := alerts s;
     loadingChallenges := loadingChallenges s; analyzing := f (analyzing s);
     grading := grading s |}.

Definition setGrading (f : list EvaluationCall -> list EvaluationCall)
    (s : AppState) : AppState :=
  {| apiKey := apiKey s; challenges := challenges s;
     activeChallenge := activeChallenge s; rows := rows s;
     isLoading := isLoading s; sessionResult := sessionResult s;
     initError := initError s; alerts := alerts s;
     loadingChallenges := loadingChallenges s; analyzing := analyzing s;
     grading := f (grading s) |}.

(** Statements in sequence: [s |> f |> g] does [f], then [g]. *)
Notation "s |> f" := (f s) (at level 45, left associativity, only parsing).

(** *** Mounting and the initial load of the challenges *)

Definition initial (key : bool) : AppState :=
  {| apiKey := key; challenges := []; activeChallenge := None; rows := [];
     isLoading := false; sessionResult := None; initError := None;
     alerts := []; loadingChallenges := 0; analyzing := []; grading := [] |}.

(** The effect that runs after the first render. *)
Definition mount (key : bool) : AppState :=
  if key
  then initial key |> setIsLoading true |> setLoadingChallenges 1
  else initial key.

(** The [then], [catch] and [finally] callbacks of the effect. *)
Definition loaded (data : Completion (list Challenge)) (s : AppState)
  : AppState :=
  match data with
  | Returns data =>
      (if 0 <? length data then setChallenges data s else s)
      |> setIsLoading false
  | Throws =>
      s |> setInitError (Some (js "Failed to load challenges."))
        |> setIsLoading false
  | Pending => s
  end.

(** *** The handlers *)

Definition startChallenge (uuid : jsstring) (challenge : Challenge)
    (s : AppState) : AppState :=
  s |> setActiveChallenge (Some challenge)
    |> setSessionResult None
    |> setRows (fun _ =>
         [ {| id := uuid; stepNumber := 1; content := [];
              aiInterrogation := None; status := Active;
              depthScore := None |} ]).

Definition updateRow (id0 : jsstring) (content0 : jsstring) (s : AppState)
  : AppState :=
  s |> setRows (map (fun row =>
         if str_eqb (id row) id0 then with_content content0 row else row)).

(** [submitRow] up to its [await]. *)
Definition submitRow (id0 : jsstring) (s : AppState) : AppState :=
  match find (fun r => str_eqb (id r) id0) (rows s), activeChallenge s with
  | Some row, Some challenge =>
      if bool_decide (status row <> Active) then s
      else
        s |> setRows (map (fun r =>
               if str_eqb (id r) id0 then with_status Analyzing r else r))
          |> setAnalyzing (fun calls => calls ++
               [ {| call_id := id0; call_row := row;
                    call_previousRows :=
                      List.filter (fun r => stepNumber r <? stepNumber row)
                             (rows s);
                    call_challenge := challenge |} ])
  | _, _ => s
  end.

Definition critiqued (analysis : Analysis) (r : ReasoningRow)
  : ReasoningRow :=
  {| id := id r; stepNumber := stepNumber r; content := content r;
     aiInterrogation := Some (text analysis); status := Completed;
     depthScore := Some (analysis_depthScore analysis) |}.

(** [submitRow] from its [await] on: the rest of the [try] block when the
    call returned, the [catch] block when it threw. *)
Definition submitRow_resumed (uuid : jsstring) (call : CritiqueCall)
    (analysis : Completion Analysis) (s : AppState) : AppState :=
  match analysis with
  | Returns analysis =>
      s |> setRows (map (fun r =>
             if str_eqb (id r) (call_id call) then critiqued analysis r
             else r))
        |> setRows (fun prev => prev ++
             [ {| id := uuid;
                  stepNumber := stepNumber (call_row call) + 1;
                  content := []; aiInterrogation := None;
                  status := Active; depthScore := None |} ])
  | Throws =>
      s |> setRows (map (fun r =>
             if str_eqb (id r) (call_id call) then with_status Active r
             else r))
        |> alert (js "Something went wrong analyzing your step. Please try again.")
  | Pending => s
  end.

(** The rows [finishSession] hands to the evaluator. *)
Definition validRows (rs : list ReasoningRow) : list ReasoningRow :=
  List.filter
    (fun r => bool_decide (status r = Completed) || nonBlank (content r)) rs.

(** [finishSession] up to its [await]. *)
Definition finishSession (s : AppState) : AppState :=
  match activeChallenge s with
  | None => s
  | Some challenge =>
      s |> setIsLoading true
        |> setGrading (fun calls => calls ++
             [ {| call_validRows := validRows (rows s);
                  eval_challenge := challenge |} ])
  end.

(** [finishSession] from its [await] on, [finally] included. *)
Definition finishSession_resumed (result : Completion SessionResult)
    (s : AppState) : AppState :=
  match result with
  | Returns result =>
      s |> setSessionResult (Some result) |> setIsLoading false
  | Throws =>
      s |> alert (js "Failed to generate report. Please try again.")
        |> setIsLoading false
  | Pending => s
  end.

Definition onRestart (s : AppState) : AppState :=
  s |> setActiveChallenge None |> setRows (fun _ => [])
    |> setSessionResult None.

(** *** What is rendered *)

Inductive View := ConfigurationError | Landing | Report | Worksheet.

Definition view (s : AppState) : View :=
  if negb (apiKey s) then ConfigurationError
  else match activeChallenge s, sessionResult s with
       | None, _ => Landing
       | Some _, Some _ => Report
       | Some _, None => Worksheet
       end.

Definition completedCount (rs : list ReasoningRow) : nat :=
  length (List.filter (fun r => bool_decide (status r = Completed)) rs).

(** The [disabled] attribute of the button that calls [finishSession]. *)
Definition finishDisabled (s : AppState) : bool :=
  isLoading s || (completedCount (rows s) <? 2).

End App.
Import App.


(** ** The running application

    One step is either a user event on a control that the rendered view
    offers, or the event loop resuming a handler whose awaited call has
    settled. *)

Module Session.

Inductive UIEvent :=
| ClickChallenge (idx : nat) (uuid : jsstring)   (* a card of the landing view *)
| Change (idx : nat) (value : jsstring)          (* typing in the textarea of a row *)
| KeyDown (idx : nat) (key : Key) (shiftKey : bool)
| ClickFinish
| ClickLogo                                      (* the header's way back to the landing view *)
| ClickRestart.                                  (* the report's restart button *)

(** [None]: the control is not rendered, or is disabled. *)
Definition ui (e : UIEvent) (s : AppState) : option AppState :=
  match view s, e with
  | Landing, ClickChallenge idx uuid =>
      if isLoading s && (length (challenges s) =? 0) then None
      else match challenges s !! idx with
           | Some challenge => Some (startChallenge uuid challenge s)
           | None => None
           end
  | Worksheet, Change idx value =>
      match rows s !! idx with
      | Some row =>
          if isLocked row then None else Some (updateRow (id row) value s)
      | None => None
      end
  | Worksheet, KeyDown idx key shiftKey =>
      match rows s !! idx with
      | Some row =>
          if isLocked row then None
          else Some (handleKeyDown key shiftKey row submitRow s)
      | None => None
      end
  | Worksheet, ClickFinish =>
      if finishDisabled s then None else Some (finishSession s)
  | Worksheet, ClickLogo => Some (setActiveChallenge None s)
  | Report, ClickRestart => Some (onRestart s)
  | _, _ => None
  end.

(** A call in flight settles; the world of that call decides how.  The
    identifier of the row that a returned critique appends comes from
    [safeUUID], hence from the environment too. *)
Inductive LoopEvent :=
| ChallengesSettle (w : World (list Challenge))
| CritiqueSettles (k : nat) (w : World Analysis) (uuid : jsstring)
| EvaluationSettles (k : nat) (w : World SessionResult).

Definition settled {T} (c : Completion T) : bool :=
  match c with
  | Pending => false
  | _ => true
  end.

(** [None]: there is no such call in flight, or it does not settle. *)
Definition loop (e : LoopEvent) (s : AppState) : option AppState :=
  match e with
  | ChallengesSettle w =>
      match loadingChallenges s with
      | 0 => None
      | S n =>
          let data := getSuggestedChallenges w in
          if settled data
          then Some (loaded data (setLoadingChallenges n s))
          else None
      end
  | CritiqueSettles k w uuid =>
      match analyzing s !! k with
      | Some call =>
          let analysis :=
            interrogateRow w (content (call_row call))
              (call_previousRows call) (call_challenge call) in
          if settled analysis
          then Some (submitRow_resumed uuid call analysis
                       (setAnalyzing (delete k) s))
          else None
      | None => None
      end
  | EvaluationSettles k w =>
      match grading s !! k with
      | Some call =>
          let result :=
            evaluateSession w (call_validRows call) (eval_challenge call) in
          if settled result
          then Some (finishSession_resumed result (setGrading (delete k) s))
          else None
      | None => None
      end
  end.

Inductive Event := User (e : UIEvent) | Loop (e : LoopEvent).

Definition fire (ev : Event) (s : AppState) : option AppState :=
  match ev with
  | User e => ui e s
  | Loop e => loop e s
  end.

Fixpoint run (trace : list Event) (s : AppState) : option AppState :=
  match trace with
  | [] => Some s
  | ev :: trace' =>
      match fire ev s with
      | Some s' => run trace' s'
      | None => None
      end
  end.

(** The four operations of a session -- starting it, editing a step,
    submitting a step, finishing -- and the settling of the calls they
    make.  Leaving through the header and restarting from the report are
    the two events that are not among them. *)
Definition sessionOp (ev : Event) : bool :=
  match ev with
  | User ClickLogo | User ClickRestart => false
  | _ => true
  end.

Inductive reachable : AppState -> Prop :=
| reachable_mount key : reachable (mount key)
| reachable_fire ev s s' :
    reachable s -> sessionOp ev = true -> fire ev s = Some s' ->
    reachable s'.

(** *** The properties of the list of steps *)

Definition positions_ok (rs : list ReasoningRow) : Prop :=
  map stepNumber rs = seq 1 (length rs).

Definition earlier_completed (rs : list ReasoningRow) : Prop :=
  forall i r, rs !! i = Some r -> S i < length rs -> status r = Completed.

Definition last_open (rs : list ReasoningRow) : Prop :=
  forall r, rs !! (length rs - 1) = Some r ->
            status r = Active \/ status r = Analyzing.

(** *** The invariant behind them

    A session is a run of completed steps followed by one current step.
    While the current step is being analyzed exactly one critique is in
    flight, and it is the one for that step; an evaluation has been asked
    for only once two steps were completed. *)

Definition critique_ok (s : AppState) (done : list ReasoningRow)
    (cur : ReasoningRow) : Prop :=
  (status cur = Active /\ analyzing s = [])
  \/ (status cur = Analyzing
      /\ Forall (fun r => id r <> id cur) done
      /\ exists call, analyzing s = [call]
                      /\ call_id call = id cur
                      /\ stepNumber (call_row call) = stepNumber cur).

Definition grading_ok (s : AppState) (done : list ReasoningRow) : Prop :=
  2 <= length done
  \/ (isLoading s = false /\ sessionResult s = None /\ grading s = []).

Inductive Inv (s : AppState) : Prop :=
| Inv_landing :
    activeChallenge s = None -> rows s = [] -> sessionResult s = None ->
    analyzing s = [] -> grading s = [] ->
    (isLoading s = true /\ challenges s = [] /\ loadingChallenges s = 1)
    \/ (isLoading s = false /\ loadingChallenges s = 0) ->
    Inv s
| Inv_session challenge done cur :
    apiKey s = true ->
    activeChallenge s = Some challenge ->
    rows s = done ++ [cur] ->
    Forall (fun r => status r = Completed) done ->
    positions_ok (rows s) ->
    loadingChallenges s = 0 ->
    critique_ok s done cur ->
    grading_ok s done ->
    Inv s.

(** *** A sample session *)

Definition sampleWorld {T} (data : T) : World T :=
  {| API_KEY := true; generateContent := Resolves 300 (Json data);
     promise_first := true |}.

Definition noKey {T} : World T :=
  {| API_KEY := false; generateContent := NeverSettles;
     promise_first := true |}.

Definition slowWorld {T} (data : T) : World T :=
  {| API_KEY := true; generateContent := Resolves 9000 (Json data);
     promise_first := true |}.

Definition hashRing : Analysis :=
  {| text := js "Why hash ring over range sharding?";
     analysis_depthScore := 7 |}.

Definition sampleTrace : list Event :=
  [ Loop (ChallengesSettle (sampleWorld FALLBACK_CHALLENGES));
    User (ClickChallenge 0 (js "a"));
    User (Change 0 (js "use a hash ring for sharding"));
    User (KeyDown 0 Enter false);
    Loop (CritiqueSettles 0 (sampleWorld hashRing) (js "b"));
    User (Change 1 (js "replicate each shard three times"));
    User (KeyDown 1 Enter false) ].

Definition sampleChallenge : Challenge :=
  {| challenge_id := js "3"; title := js "Distributed Counter";
     description := js "Design a distributed counter.";
     difficulty := Principal; context := js "CAP theorem limits." |}.

(** [n] completed steps, with contents "A", "B", ... *)
Definition completedSteps (n : nat) : list ReasoningRow :=
  map (fun k =>
         {| id := [N.of_nat (96 + k)]; stepNumber := k;
            content := [N.of_nat (64 + k)];
            aiInterrogation := Some (js "Why?"); status := Completed;
            depthScore := Some 5%Z |})
      (seq 1 n).

(** A session with [n] completed steps and nothing in flight. *)
Definition sessionWith (rs : list ReasoningRow) : AppState :=
  initial true |> setActiveChallenge (Some sampleChallenge)
               |> setRows (fun _ => rs).

(** An open step holding [text]. *)
Definition openStep (text : jsstring) : ReasoningRow :=
  {| id := js "a"; stepNumber := 1; content := text;
     aiInterrogation := None; status := Active; depthScore := None |}.

(** The state after [sampleTrace]: step 1 completed, step 2 being
    analyzed. *)
Definition sampleState : AppState :=
  default (initial true) (run sampleTrace (mount true)).

Definition sampleCall : CritiqueCall :=
  {| call_id := js "b";
     call_row := {| id := js "b"; stepNumber := 2;
                    content := js "replicate each shard three times";
                    aiInterrogation := None; status := Active;
                    depthScore := None |};
     call_previousRows :=
       [ {| id := js "a"; stepNumber := 1;
            content := js "use a hash ring for sharding";
            aiInterrogation := Some (text hashRing); status := Completed;
            depthScore := Some 7%Z |} ];
     call_challenge := hd sampleChallenge FALLBACK_CHALLENGES |}.

(** The critique of step 2 comes back: two steps are completed. *)
Definition secondCritique : Event :=
  Loop (CritiqueSettles 0 (sampleWorld fallbackResponse) (js "c")).

Definition sampleState2 : AppState :=
  default (initial true) (fire secondCritique sampleState).

Definition goodResult : SessionResult :=
  {| score := 82; summary := js "Solid reasoning.";
     strengths := [js "Trade-offs"]; weaknesses := [js "Capacity numbers"] |}.

(** Leaving through the header while the critique of step 1 is in flight,
    then starting another session: the critique comes back afterwards. *)
Definition leavingTrace : list Event :=
  [ Loop (ChallengesSettle (sampleWorld FALLBACK_CHALLENGES));
    User (ClickChallenge 0 (js "a"));
    User (Change 0 (js "use a hash ring for sharding"));
    User (KeyDown 0 Enter false);
    User ClickLogo;
    User (ClickChallenge 1 (js "x"));
    Loop (CritiqueSettles 0 (sampleWorld hashRing) (js "b")) ].

(** [leavingTrace] up to the moment before the critique comes back: the
    first session was left with its step being analyzed, and another one
    has been started. *)
Definition leftTrace : list Event := removelast leavingTrace.

Definition leftState : AppState :=
  default (initial true) (run leftTrace (mount true)).

(** The critique that is still in flight in [leftState]. *)
Definition leftCall : CritiqueCall :=
  {| call_id := js "a";
     call_row := {| id := js "a"; stepNumber := 1;
                    content := js "use a hash ring for sharding";
                    aiInterrogation := None; status := Active;
                    depthScore := None |};
     call_previousRows := [];
     call_challenge := hd sampleChallenge FALLBACK_CHALLENGES |}.

(** [sampleState] after a click on the header alone: the landing view,
    with the steps of the session still in the list. *)
Definition awayState : AppState :=
  default (initial true) (ui ClickLogo sampleState).

End Session.
Import Session.

(** ** More of the same files

    The number formatting of the step label and of the critique prompt, the
    identifier generator of [App.tsx], and what is needed to speak of
    sessions whose generated identifiers are new. *)

Module JsText.

(** [String(n)], also [`${n}`], for a non-negative integer: its decimal
    digits. *)
Fixpoint uint_codes (d : Decimal.uint) : jsstring :=
  match d with
  | Decimal.Nil => []
  | Decimal.D0 d => 48%N :: uint_codes d
  | Decimal.D1 d => 49%N :: uint_codes d
  | Decimal.D2 d => 50%N :: uint_codes d
  | Decimal.D3 d => 51%N :: uint_codes d
  | Decimal.D4 d => 52%N :: uint_codes d
  | Decimal.D5 d => 53%N :: uint_codes d
  | Decimal.D6 d => 54%N :: uint_codes d
  | Decimal.D7 d => 55%N :: uint_codes d
  | Decimal.D8 d => 56%N :: uint_codes d
  | Decimal.D9 d => 57%N :: uint_codes d
  end.

Definition numberToString (n : nat) : jsstring := uint_codes (Nat.to_uint n).

(** Reading decimal digits back, as [parseInt(s, 10)] does; [None] when a
    code unit is not a digit. *)
Fixpoint codes_uint (s : jsstring) : option Decimal.uint :=
  match s with
  | [] => Some Decimal.Nil
  | c :: s' =>
      match codes_uint s' with
      | None => None
      | Some d =>
          if (c =? 48)%N then Some (Decimal.D0 d)
          else if (c =? 49)%N then Some (Decimal.D1 d)
          else if (c =? 50)%N then Some (Decimal.D2 d)
          else if (c =? 51)%N then Some (Decimal.D3 d)
          else if (c =? 52)%N then Some (Decimal.D4 d)
          else if (c =? 53)%N then Some (Decimal.D5 d)
          else if (c =? 54)%N then Some (Decimal.D6 d)
          else if (c =? 55)%N then Some (Decimal.D7 d)
          else if (c =? 56)%N then Some (Decimal.D8 d)
          else if (c =? 57)%N then Some (Decimal.D9 d)
          else None
      end
  end.

Definition parseDigits (s : jsstring) : option nat :=
  option_map Nat.of_uint (codes_uint s).

(** [s.padStart(len, pad)] with a pad of one code unit. *)
Definition padStart (len : nat) (pad : N) (s : jsstring) : jsstring :=
  repeat pad (len - length s) ++ s.

(** [v.toString(16)] for a non-negative integer. *)
Fixpoint hex_codes (d : Hexadecimal.uint) : jsstring :=
  match d with
  | Hexadecimal.Nil => []
  | Hexadecimal.D0 d => 48%N :: hex_codes d
  | Hexadecimal.D1 d => 49%N :: hex_codes d
  | Hexadecimal.D2 d => 50%N :: hex_codes d
  | Hexadecimal.D3 d => 51%N :: hex_codes d
  | Hexadecimal.D4 d => 52%N :: hex_codes d
  | Hexadecimal.D5 d => 53%N :: hex_codes d
  | Hexadecimal.D6 d => 54%N :: hex_codes d
  | Hexadecimal.D7 d => 55%N :: hex_codes d
  | Hexadecimal.D8 d => 56%N :: hex_codes d
  | Hexadecimal.D9 d => 57%N :: hex_codes d
  | Hexadecimal.Da d => 97%N :: hex_codes d
  | Hexadecimal.Db d => 98%N :: hex_codes d
  | Hexadecimal.Dc d => 99%N :: hex_codes d
  | Hexadecimal.Dd d => 100%N :: hex_codes d
  | Hexadecimal.De d => 101%N :: hex_codes d
  | Hexadecimal.Df d => 102%N :: hex_codes d
  end.

Definition toString16 (v : N) : jsstring := hex_codes (N.to_hex_uint v).

Definition isHexDigit (c : N) : bool :=
  ((48 <=? c) && (c <=? 57) || (97 <=? c) && (c <=? 102))%N.

(** The one hexadecimal digit of a value below sixteen. *)
Definition hexDigit (v : N) : N := (if v <? 10 then 48 + v else 87 + v)%N.

End JsText.
Import JsText.

Module Rendering.

(** The step indicator of [WorksheetRow]:
    [String(row.stepNumber).padStart(2, '0')]. *)
Definition stepLabel (row : ReasoningRow) : jsstring :=
  padStart 2 48%N (numberToString (stepNumber row)).

(** [historyText] and [prompt] of [interrogateRow]. *)
Definition historyText (history : list ReasoningRow) : jsstring :=
  join [10%N]
    (map (fun h => js "Step " ++ numberToString (stepNumber h) ++ js ": "
                   ++ content h)
         (recentHistory history)).

Definition interrogationPrompt (currentInput : jsstring)
    (history : list ReasoningRow) (challenge : Challenge) : jsstring :=
  [10%N] ++ js "    Role: Skeptical Principal Engineer." ++ [10%N]
  ++ js "    Context: System Design: " ++ title challenge ++ js "." ++ [10%N]
  ++ js "    Previous: " ++ historyText history ++ [10%N]
  ++ js "    Current: " ++ [34%N] ++ currentInput ++ [34%N] ++ [10%N]
  ++ js "    " ++ [10%N]
  ++ js "    Task: One short, sharp question (max 15 words) challenging the trade-offs. Rate depth (1-10)."
  ++ [10%N] ++ js "  ".

End Rendering.
Import Rendering.

Module Uuid.

Definition uuidTemplate : jsstring := js "xxxxxxxx-xxxx-4xxx-yxxx-xxxxxxxxxxxx".

(** The [replace(/[xy]/g, ...)] of [safeUUID]: [draw k] is
    [Math.random() * 16 | 0] at the [k]-th call of the callback. *)
Fixpoint replaceXY (draw : nat -> N) (k : nat) (s : jsstring) : jsstring :=
  match s with
  | [] => []
  | c :: s' =>
      if ((c =? 120) || (c =? 121))%N
      then
        let r := draw k in
        let v := if (c =? 120)%N then r else N.lor (N.land r 0x3) 0x8 in
        toString16 v ++ replaceXY draw (S k) s'
      else c :: replaceXY draw k s'
  end.

(** [replaceXY] when every call of the callback returns one digit, as it
    does for draws below sixteen. *)
Fixpoint fillXY (draw : nat -> N) (k : nat) (s : jsstring) : jsstring :=
  match s with
  | [] => []
  | c :: s' =>
      if ((c =? 120) || (c =? 121))%N
      then hexDigit (if (c =? 120)%N then draw k
                     else N.lor (N.land (draw k) 0x3) 0x8)
           :: fillXY draw (S k) s'
      else c :: fillXY draw k s'
  end.

(** [safeUUID]: [native] is the result of [crypto.randomUUID()] where there
    is one. *)
Definition safeUUID (native : option jsstring) (draw : nat -> N) : jsstring :=
  match native with
  | Some uuid => uuid
  | None => replaceXY draw 0 uuidTemplate
  end.

End Uuid.
Import Uuid.

Module Lifecycle.

(** The answer of the service that a call guarded with a deadline of [ms]
    accepts: well-formed, and ahead of the timer. *)
Definition accepted {T} (ms : N) (w : World T) : option T :=
  match generateContent w with
  | Resolves t (Json data) =>
      if ((t <? ms) || ((t =? ms) && promise_first w))%N then Some data
      else None
  | _ => None
  end.

(** A service call made with a key returns, and what it returns is the
    answer of the service only when that answer is well-formed and arrives
    before [ms]; in every other case it is [fallback]. *)
Definition guards {T} (call : World T -> Completion T) (ms : N) (fallback : T)
  : Prop :=
  forall w : World T,
    API_KEY w = true ->
    (forall t data, generateContent w = Resolves t (Json data) -> (t < ms)%N ->
       call w = Returns data)
    /\ (forall t data, generateContent w = Resolves t (Json data) ->
          (ms < t)%N -> call w = Returns fallback)
    /\ (forall t, generateContent w = Resolves t BadJson ->
          call w = Returns fallback)
    /\ (forall t, generateContent w = Resolves t NoText ->
          call w = Returns fallback)
    /\ (forall t, generateContent w = Rejects t -> call w = Returns fallback)
    /\ (generateContent w = NeverSettles -> call w = Returns fallback).

(** The identifier that an event brings for a new step is not the
    identifier of a step of the list. *)
Definition freshId (ev : Event) (s : AppState) : bool :=
  match ev with
  | Loop (CritiqueSettles _ _ uuid) =>
      negb (existsb (fun r => str_eqb (id r) uuid) (rows s))
  | _ => true
  end.

Inductive reachable_fresh : AppState -> Prop :=
| reachable_fresh_mount key : reachable_fresh (mount key)
| reachable_fresh_fire ev s s' :
    reachable_fresh s -> sessionOp ev = true -> freshId ev s = true ->
    fire ev s = Some s' -> reachable_fresh s'.

Fixpoint run_fresh (trace : list Event) (s : AppState) : option AppState :=
  match trace with
  | [] => Some s
  | ev :: trace' =>
      if sessionOp ev && freshId ev s
      then match fire ev s with
           | Some s' => run_fresh trace' s'
           | None => None
           end
      else None
  end.

Definition analyzingCount (rs : list ReasoningRow) : nat :=
  length (List.filter (fun r => bool_decide (status r = Analyzing)) rs).

(** Gradings in flight against the loading flag. *)
Definition grading_flag (s : AppState) : Prop :=
  match grading s with
  | [] => activeChallenge s = None \/ isLoading s = false
  | [_] => isLoading s = true /\ sessionResult s = None
  | _ => False
  end.

(** The state the application is in once the challenges are loaded. *)
Definition loadedState : AppState :=
  default (initial true)
    (fire (Loop (ChallengesSettle (sampleWorld FALLBACK_CHALLENGES)))
       (mount true)).

(** [sampleTrace] carried on to the report. *)
Definition reportTrace : list Event :=
  sampleTrace
  ++ [ secondCritique; User ClickFinish;
       Loop (EvaluationSettles 0 (sampleWorld goodResult)) ].

Definition reportState : AppState :=
  default (initial true) (run reportTrace (mount true)).

End Lifecycle.
Import Lifecycle.

Example sampleTrace_rows :
  option_map (fun s => map (fun r => (stepNumber r, status r)) (rows s))
    (run sampleTrace (mount true))
  = Some [(1, Completed); (2, Analyzing)].
Proof. vm_compute. reflexivity. Qed.

(** * Properties *)

(** ** The timeout wrapper *)

Section WithTimeoutFacts.
Context {T : Type}.
Implicit Types (r : Race T) (cb : Callback T) (p : Settlement T).

(** Once resolved, a promise keeps its value whatever runs later. *)
Lemma run_callback_resolved fallback r cb x :
  result r = Some x -> result (run_callback fallback r cb) = Some x.
Proof.
  intros Hr. destruct cb; simpl.
  - destruct (timer r); [|exact Hr]. unfold resolve. simpl. now rewrite Hr.
  - unfold resolve. simpl. now rewrite Hr.
  - unfold resolve. simpl. now rewrite Hr.
Qed.

Lemma run_callbacks_resolved fallback cbs r x :
  result r = Some x -> result (run_callbacks fallback cbs r) = Some x.
Proof.
  revert r. induction cbs as [|cb cbs IH]; intros r Hr; simpl.
  - exact Hr.
  - apply IH. now apply run_callback_resolved.
Qed.

(** The first callback that runs decides. *)
Lemma first_callback_decides fallback cb cbs :
  result (run_callbacks fallback (cb :: cbs) started)
  = Some match cb with
         | OnFulfilled v => v
         | _ => fallback
         end.
Proof.
  simpl. apply run_callbacks_resolved. now destruct cb.
Qed.

Lemma schedule_nonempty p ms first : schedule p ms first <> [].
Proof.
  unfold schedule. destruct p; simpl; try discriminate;
    now destruct (_ || _).
Qed.

Lemma withTimeout_promise_first p ms fallback first t :
  settled_at p = Some t ->
  ((t <? ms) || ((t =? ms) && first))%N = true ->
  withTimeout p ms fallback first
  = Some match p with
         | Resolves _ v => v
         | _ => fallback
         end.
Proof.
  intros Ht Hlt. unfold withTimeout, schedule. rewrite Ht, Hlt.
  destruct p; try discriminate; cbn [settle_callback app];
    now rewrite first_callback_decides.
Qed.

Lemma withTimeout_timer_first p ms fallback first :
  match settled_at p with
  | Some t => ((t <? ms) || ((t =? ms) && first))%N = false
  | None => True
  end ->
  withTimeout p ms fallback first = Some fallback.
Proof.
  intros H. unfold withTimeout, schedule.
  destruct (settled_at p) as [t|]; [rewrite H|];
    now rewrite first_callback_decides.
Qed.

Lemma withTimeout_total p ms fallback first :
  exists x, withTimeout p ms fallback first = Some x
            /\ (x = fallback \/ exists t, p = Resolves t x).
Proof.
  destruct (settled_at p) as [t|] eqn:Ht.
  - destruct ((t <? ms) || ((t =? ms) && first))%N eqn:Hlt.
    + rewrite (withTimeout_promise_first _ _ _ _ _ Ht Hlt).
      destruct p; eauto.
    + rewrite withTimeout_timer_first; [eauto|]. now rewrite Ht.
  - rewrite withTimeout_timer_first; [eauto|]. now rewrite Ht.
Qed.

End WithTimeoutFacts.

(** C1.  [withTimeout] hands its caller the value of the wrapped promise
    when that promise is fulfilled before the deadline, and the fallback
    when it is rejected (at any time), fulfilled after the deadline, or
    never settled.  The caller always receives a value, which is one of
    the two; and once the returned promise holds a value, no callback
    that runs later -- the late settlement of the wrapped promise
    included -- changes it.  When the promise is fulfilled in the very
    millisecond of the deadline, the order in which the event loop runs the
    two callbacks decides. *)
Theorem withTimeout_race {T} (p : Settlement T) (ms : N) (fallback : T)
    (first : bool) :
  (forall t v, p = Resolves t v -> (t < ms)%N ->
     withTimeout p ms fallback first = Some v)
  /\ (forall t, p = Rejects t -> withTimeout p ms fallback first = Some fallback)
  /\ (forall t v, p = Resolves t v -> (ms < t)%N ->
        withTimeout p ms fallback first = Some fallback)
  /\ (p = NeverSettles -> withTimeout p ms fallback first = Some fallback)
  /\ (forall v, p = Resolves ms v ->
        withTimeout p ms fallback first = Some (if first then v else fallback))
  /\ (exists x, withTimeout p ms fallback first = Some x
                /\ (x = fallback \/ exists t, p = Resolves t x))
  /\ (forall cb late,
        result (run_callbacks fallback (cb :: late) started)
        = result (run_callback fallback started cb)
        /\ result (run_callback fallback started cb) <> None).
Proof.
  repeat split.
  - intros t v -> Hlt.
    rewrite (withTimeout_promise_first _ _ _ _ t); [reflexivity..|].
    apply N.ltb_lt in Hlt. now rewrite Hlt.
  - intros t ->.
    destruct ((t <? ms) || ((t =? ms) && first))%N eqn:Hlt.
    + now rewrite (withTimeout_promise_first _ _ _ _ t).
    + now rewrite withTimeout_timer_first.
  - intros t v -> Hlt. apply withTimeout_timer_first. simpl.
    apply orb_false_iff. split.
    + apply N.ltb_ge. lia.
    + apply andb_false_iff. left. apply N.eqb_neq. lia.
  - intros ->. now apply withTimeout_timer_first.
  - intros v ->. destruct first.
    + rewrite (withTimeout_promise_first _ _ _ _ ms); [reflexivity..|].
      now rewrite N.eqb_refl, orb_true_r.
    + apply withTimeout_timer_first. simpl.
      now rewrite N.ltb_irrefl, andb_false_r.
  - apply withTimeout_total.
  - rewrite first_callback_decides. now destruct cb.
  - now destruct cb.
Qed.

Lemma withTimeout_race_witness :
  withTimeout (Resolves 300 hashRing) 4000 fallbackResponse true = Some hashRing
  /\ withTimeout (Resolves 9000 hashRing) 4000 fallbackResponse true
     = Some fallbackResponse.
Proof.
  split.
  - apply (withTimeout_race (Resolves 300 hashRing) 4000 fallbackResponse true)
      with (t := 300%N); [reflexivity | reflexivity].
  - apply (withTimeout_race (Resolves 9000 hashRing) 4000 fallbackResponse true)
      with (t := 9000%N) (v := hashRing); [reflexivity | reflexivity].
Defined.

(** ** Strings *)

Lemma trimStart_nil_iff (s : jsstring) :
  trimStart s = [] <-> forallb isWhiteSpace s = true.
Proof.
  induction s as [|c s IH]; simpl; [tauto|].
  destruct (isWhiteSpace c); simpl; [exact IH|].
  split; discriminate.
Qed.

Lemma forallb_trimStart (s : jsstring) :
  forallb isWhiteSpace (trimStart s) = forallb isWhiteSpace s.
Proof.
  induction s as [|c s IH]; simpl; [reflexivity|].
  destruct (isWhiteSpace c) eqn:Hc; simpl; [exact IH|].
  now rewrite Hc.
Qed.

Lemma forallb_rev {A} (f : A -> bool) (l : list A) :
  forallb f (rev l) = forallb f l.
Proof.
  induction l as [|x l IH]; simpl; [reflexivity|].
  rewrite forallb_app, IH. simpl. rewrite andb_true_r. apply andb_comm.
Qed.

Lemma trim_nil_iff (s : jsstring) :
  trim s = [] <-> forallb isWhiteSpace s = true.
Proof.
  unfold trim, trimEnd.
  rewrite <- (forallb_trimStart s), <- (forallb_rev _ (trimStart s)),
    <- trimStart_nil_iff.
  split; intros H.
  - apply (f_equal (@rev N)) in H. now rewrite rev_involutive in H.
  - now rewrite H.
Qed.

Example isWhiteSpace_samples :
  map isWhiteSpace [0x20; 0x0A; 0xA0; 0x2005; 0x3000; 0x41; 0x200B; 0x85]%N
  = [true; true; true; true; true; false; false; false].
Proof. reflexivity. Qed.

(** [s.trim().length > 0] fails exactly on the strings made of white space
    only, the empty one among them. *)
Lemma nonBlank_false_iff (s : jsstring) :
  nonBlank s = false <-> forallb isWhiteSpace s = true.
Proof.
  rewrite <- trim_nil_iff. unfold nonBlank.
  destruct (trim s); unfold Nat.ltb; simpl; split; intros; congruence.
Qed.

(** ** Handlers, one call at a time *)

Lemma str_eqb_eq (a b : jsstring) : str_eqb a b = true <-> a = b.
Proof. unfold str_eqb. apply bool_decide_eq_true. Qed.

Lemma str_eqb_neq (a b : jsstring) : str_eqb a b = false <-> a <> b.
Proof. unfold str_eqb. apply bool_decide_eq_false. Qed.

Lemma setRows_id (f : list ReasoningRow -> list ReasoningRow) (s : AppState) :
  f (rows s) = rows s -> setRows f s = s.
Proof. intros H. destruct s. unfold setRows. simpl in *. now rewrite H. Qed.

(** A [map] that only touches the rows with a given identifier leaves a
    list without such a row as it is. *)
Lemma map_unmatched (g : ReasoningRow -> ReasoningRow) (id0 : jsstring)
    (rs : list ReasoningRow) :
  Forall (fun r => id r <> id0) rs ->
  map (fun r => if str_eqb (id r) id0 then g r else r) rs = rs.
Proof.
  induction 1 as [|r rs Hr _ IH]; simpl; [reflexivity|].
  apply str_eqb_neq in Hr. now rewrite Hr, IH.
Qed.

Lemma find_unmatched (id0 : jsstring) (rs : list ReasoningRow) :
  Forall (fun r => id r <> id0) rs ->
  find (fun r => str_eqb (id r) id0) rs = None.
Proof.
  induction 1 as [|r rs Hr _ IH]; simpl; [reflexivity|].
  apply str_eqb_neq in Hr. now rewrite Hr.
Qed.

(** C4.  Pressing Enter in a step whose content is blank -- empty or made
    of white space only -- does nothing: the key handler of the row does
    not call [submitRow], so the application state is the same afterwards,
    the step still Active, the list of steps untouched, no critique call in
    flight that was not there before.  The test sits in [handleKeyDown],
    the only caller of [submitRow]. *)
Theorem blank_submit_is_noop (s : AppState) (idx : nat) (row : ReasoningRow)
    (shiftKey : bool) :
  forallb isWhiteSpace (content row) = true ->
  handleKeyDown Enter shiftKey row submitRow s = s
  /\ (view s = Worksheet -> rows s !! idx = Some row -> status row = Active ->
      ui (KeyDown idx Enter shiftKey) s = Some s).
Proof.
  intros Hblank. apply nonBlank_false_iff in Hblank.
  assert (Hk : handleKeyDown Enter shiftKey row submitRow s = s).
  { unfold handleKeyDown. rewrite Hblank. now destruct shiftKey. }
  split; [exact Hk|].
  intros Hv Hrow Hst. unfold ui. rewrite Hv, Hrow, Hk.
  unfold isLocked. now rewrite Hst.
Qed.

Lemma blank_submit_is_noop_witness :
  forallb isWhiteSpace (content (openStep (js "  "))) = true
  /\ handleKeyDown Enter false (openStep (js "  ")) submitRow
       (sessionWith [openStep (js "  ")])
     = sessionWith [openStep (js "  ")].
Proof.
  split; [reflexivity|].
  apply (blank_submit_is_noop (sessionWith [openStep (js "  ")]) 0
           (openStep (js "  ")) false).
  reflexivity.
Defined.

(** The same key on a step with something in it does submit. *)
Example nonblank_submit_submits :
  option_map (fun s => (map status (rows s), length (analyzing s)))
    (ui (KeyDown 0 Enter false) (sessionWith [openStep (js " x ")]))
  = Some ([Analyzing], 1).
Proof. vm_compute. reflexivity. Qed.

(** C10.  [updateRow] and [submitRow] with an identifier that no step
    carries, and [submitRow] without an active challenge or on a step that
    is not Active, return the state they were given: steps, challenge,
    result, alerts and calls in flight are all the same.  Both are total
    functions: nothing is thrown. *)
Theorem stray_calls_change_nothing (s : AppState) (id0 text : jsstring) :
  (Forall (fun r => id r <> id0) (rows s) ->
     updateRow id0 text s = s /\ submitRow id0 s = s)
  /\ (activeChallenge s = None -> submitRow id0 s = s)
  /\ (forall row, find (fun r => str_eqb (id r) id0) (rows s) = Some row ->
        status row <> Active -> submitRow id0 s = s).
Proof.
  repeat split.
  - unfold updateRow. apply setRows_id. now apply map_unmatched.
  - unfold submitRow. now rewrite find_unmatched.
  - intros Hc. unfold submitRow. rewrite Hc. now destruct (find _ _).
  - intros row Hfind Hst. unfold submitRow. rewrite Hfind.
    destruct (activeChallenge s); [|reflexivity].
    now rewrite bool_decide_eq_true_2.
Qed.

Lemma stray_calls_change_nothing_witness :
  updateRow (js "zz") (js "x") (sessionWith (completedSteps 2))
  = sessionWith (completedSteps 2)
  /\ submitRow (js "a") (sessionWith (completedSteps 2))
     = sessionWith (completedSteps 2).
Proof.
  split.
  - destruct (stray_calls_change_nothing (sessionWith (completedSteps 2))
                (js "zz") (js "x")) as [H _].
    apply H. simpl.
    repeat (constructor; [vm_compute; discriminate|]). constructor.
  - destruct (stray_calls_change_nothing (sessionWith (completedSteps 2))
                (js "a") (js "x")) as (_ & _ & H).
    apply (H (hd (openStep []) (completedSteps 2)));
      [reflexivity | discriminate].
Defined.

(** [updateRow] at one position of the list. *)
Lemma updateRow_lookup (s : AppState) (id0 text : jsstring) (i : nat) :
  rows (updateRow id0 text s) !! i
  = (fun r => if str_eqb (id r) id0 then with_content text r else r)
      <$> rows s !! i.
Proof. unfold updateRow. simpl. apply list_lookup_fmap. Qed.

(** Against C9 as stated: [updateRow] does overwrite the content of a
    completed step. *)
Lemma updateRow_overwrites_completed :
  ~ (forall (s : AppState) (id0 text : jsstring) (i : nat) (r : ReasoningRow),
       rows s !! i = Some r -> status r = Completed ->
       content <$> rows (updateRow id0 text s) !! i = Some (content r)).
Proof.
  intros H.
  specialize (H (sessionWith (completedSteps 1)) (js "a") (js "edited") 0
                (hd (openStep []) (completedSteps 1)) eq_refl eq_refl).
  vm_compute in H. discriminate.
Qed.

(** C9, as the code has it.  [updateRow id text] puts [text] in every step
    whose identifier is [id], whatever the status of the step -- Completed
    included -- and changes nothing else: not the other fields of that
    step, not the other steps, not their number.  What keeps the content of
    a completed step from changing is the view: the textarea of a step that
    is Completed, Analyzing or Locked is disabled, so the change event that
    would call [updateRow] is not offered. *)
Theorem updateRow_ignores_status (s : AppState) (id0 text : jsstring)
    (i : nat) (r : ReasoningRow) :
  rows s !! i = Some r ->
  length (rows (updateRow id0 text s)) = length (rows s)
  /\ (id r = id0 ->
      exists r', rows (updateRow id0 text s) !! i = Some r'
                 /\ content r' = text
                 /\ id r' = id r /\ stepNumber r' = stepNumber r
                 /\ status r' = status r
                 /\ aiInterrogation r' = aiInterrogation r
                 /\ depthScore r' = depthScore r)
  /\ (id r <> id0 -> rows (updateRow id0 text s) !! i = Some r)
  /\ (status r <> Active -> ui (Change i text) s = None).
Proof.
  intros Hr. rewrite updateRow_lookup, Hr. simpl. repeat split.
  - unfold updateRow. simpl. apply length_map.
  - intros Hid. apply str_eqb_eq in Hid. rewrite Hid. eauto 10.
  - intros Hid. apply str_eqb_neq in Hid. now rewrite Hid.
  - intros Hst. unfold ui. destruct (view s); try reflexivity.
    rewrite Hr. unfold isLocked. now destruct (status r).
Qed.

Lemma updateRow_ignores_status_witness :
  length (rows (updateRow (js "a") (js "edited")
                  (sessionWith (completedSteps 1))))
  = length (rows (sessionWith (completedSteps 1)))
  /\ ui (Change 0 (js "edited")) (sessionWith (completedSteps 1)) = None.
Proof.
  destruct (updateRow_ignores_status (sessionWith (completedSteps 1))
              (js "a") (js "edited") 0 (hd (openStep []) (completedSteps 1))
              eq_refl) as (Hlen & _ & _ & Hui).
  split; [exact Hlen|]. apply Hui. discriminate.
Defined.

(** [interrogateRow] throws exactly when there is no API key: everything
    else happens under [withTimeout]. *)
Lemma interrogateRow_throws_iff (w : World Analysis) (input : jsstring)
    (history : list ReasoningRow) (challenge : Challenge) :
  interrogateRow w input history challenge = Throws <-> API_KEY w = false.
Proof.
  unfold interrogateRow, getAI. destruct (API_KEY w); [|tauto].
  destruct (withTimeout_total (parsed fallbackResponse (generateContent w))
              4000 fallbackResponse (promise_first w)) as (x & -> & _).
  simpl. split; discriminate.
Qed.

Lemma interrogateRow_returns (w : World Analysis) (input : jsstring)
    (history : list ReasoningRow) (challenge : Challenge) :
  API_KEY w = true ->
  exists analysis, interrogateRow w input history challenge = Returns analysis.
Proof.
  intros Hk. unfold interrogateRow, getAI. rewrite Hk.
  destruct (withTimeout_total (parsed fallbackResponse (generateContent w))
              4000 fallbackResponse (promise_first w)) as (x & -> & _).
  simpl. eauto.
Qed.

(** ** The service calls without a key *)

Lemma getSuggestedChallenges_returns (w : World (list Challenge)) :
  exists data, getSuggestedChallenges w = Returns data.
Proof.
  unfold getSuggestedChallenges, getAI. destruct (API_KEY w); [|eauto].
  destruct (withTimeout_total
              (parsed FALLBACK_CHALLENGES (generateContent w))
              1500 FALLBACK_CHALLENGES (promise_first w)) as (x & -> & _).
  simpl. eauto.
Qed.

(** Against C7 as stated: without a key [evaluateSession] does not return
    the fallback result, it throws. *)
Lemma evaluateSession_without_key_throws :
  evaluateSession noKey (completedSteps 2) sampleChallenge = Throws
  /\ evaluateSession noKey (completedSteps 2) sampleChallenge
     <> Returns fallbackResult.
Proof. split; [reflexivity | discriminate]. Qed.

(** C7, as the code has it.  Without an API key [getSuggestedChallenges]
    catches the error of [getAI] and returns the hardcoded catalog, which
    is not empty; it returns a value in every world.  [evaluateSession]
    has no such [try]: the error of [getAI] reaches its caller.
    [finishSession] catches it there: no result is stored, the steps are
    untouched, the loading flag is cleared and an alert asks to try
    again. *)
Theorem missing_key_listing_absorbed_evaluation_thrown
    (wl : World (list Challenge)) (we : World SessionResult)
    (rs : list ReasoningRow) (challenge : Challenge) (s : AppState) :
  API_KEY wl = false -> API_KEY we = false ->
  getSuggestedChallenges wl = Returns FALLBACK_CHALLENGES
  /\ FALLBACK_CHALLENGES <> []
  /\ (forall w, exists data, getSuggestedChallenges w = Returns data)
  /\ evaluateSession we rs challenge = Throws
  /\ sessionResult (finishSession_resumed (evaluateSession we rs challenge) s)
     = sessionResult s
  /\ rows (finishSession_resumed (evaluateSession we rs challenge) s) = rows s
  /\ isLoading (finishSession_resumed (evaluateSession we rs challenge) s)
     = false
  /\ alerts (finishSession_resumed (evaluateSession we rs challenge) s)
     = alerts s ++ [js "Failed to generate report. Please try again."].
Proof.
  intros Hl He.
  assert (Hthrows : evaluateSession we rs challenge = Throws).
  { unfold evaluateSession, getAI. now rewrite He. }
  rewrite Hthrows. repeat split.
  - unfold getSuggestedChallenges, getAI. now rewrite Hl.
  - discriminate.
  - apply getSuggestedChallenges_returns.
Qed.

Lemma missing_key_listing_absorbed_evaluation_thrown_witness :
  getSuggestedChallenges noKey = Returns FALLBACK_CHALLENGES
  /\ evaluateSession noKey (completedSteps 2) sampleChallenge = Throws.
Proof.
  destruct (missing_key_listing_absorbed_evaluation_thrown noKey noKey
              (completedSteps 2) sampleChallenge (initial true)
              eq_refl eq_refl) as (H1 & _ & _ & H2 & _).
  split; [exact H1 | exact H2].
Defined.

(** With a key, [evaluateSession] always returns: the evaluator's answer
    or the fallback result. *)
Lemma evaluateSession_returns (w : World SessionResult)
    (rs : list ReasoningRow) (challenge : Challenge) :
  API_KEY w = true ->
  exists result, evaluateSession w rs challenge = Returns result.
Proof.
  intros Hk. unfold evaluateSession, getAI. rewrite Hk.
  destruct (withTimeout_total (parsed fallbackResult (generateContent w))
              8000 fallbackResult (promise_first w)) as (x & -> & _).
  simpl. eauto.
Qed.

Example evaluation_timeout_gives_fallback :
  evaluateSession (slowWorld goodResult) (completedSteps 2) sampleChallenge
  = Returns fallbackResult
  /\ evaluateSession
       {| API_KEY := true; generateContent := NeverSettles;
          promise_first := false |} (completedSteps 2) sampleChallenge
     = Returns fallbackResult.
Proof. split; reflexivity. Qed.

(** ** The transcript *)

Lemma slice_last_length {A} (n : nat) (l : list A) :
  length (slice_last n l) = Nat.min n (length l).
Proof. unfold slice_last. rewrite length_drop. lia. Qed.

Lemma slice_last_lookup {A} (n : nat) (l : list A) (i : nat) :
  slice_last n l !! i = l !! (length l - Nat.min n (length l) + i).
Proof.
  unfold slice_last. rewrite lookup_drop. f_equal. lia.
Qed.

Lemma slice_last_all {A} (n : nat) (l : list A) :
  length l <= n -> slice_last n l = l.
Proof.
  intros H. unfold slice_last.
  replace (length l - n) with 0 by lia. reflexivity.
Qed.

(** Against C8 as stated: with twenty-one steps selected for grading, the
    first one is missing from the transcript. *)
Lemma transcript_drops_old_steps :
  ~ (forall (rs : list ReasoningRow) (r : ReasoningRow),
       In r (validRows rs) ->
       In (content r, aiInterrogation r) (transcriptPairs (validRows rs))).
Proof.
  intros H.
  specialize (H (completedSteps 21) (hd (openStep []) (completedSteps 21))).
  assert (Hin : In (hd (openStep []) (completedSteps 21))
                   (validRows (completedSteps 21))).
  { vm_compute. left. reflexivity. }
  apply H in Hin. vm_compute in Hin.
  repeat (destruct Hin as [Hin|Hin]; [discriminate Hin|]). exact Hin.
Qed.

(** C8, as the code has it.  [finishSession] selects the steps that are
    Completed or have non-blank content, in their order, and
    [evaluateSession] puts in the transcript one (content, critique) pair
    for each of the last twenty of the steps it is given, in their order:
    all of them when there are at most twenty, and otherwise not the
    older ones. *)
Theorem transcript_is_last_twenty (rs : list ReasoningRow) :
  length (transcriptPairs rs) = Nat.min 20 (length rs)
  /\ (forall i, i < Nat.min 20 (length rs) ->
        exists r, rs !! (length rs - Nat.min 20 (length rs) + i) = Some r
                  /\ transcriptPairs rs !! i
                     = Some (content r, aiInterrogation r))
  /\ (length rs <= 20 ->
        transcriptPairs rs = map (fun r => (content r, aiInterrogation r)) rs)
  /\ (20 < length rs ->
        forall j, transcriptPairs rs !! j
                  = (fun r => (content r, aiInterrogation r))
                      <$> rs !! (length rs - 20 + j))
  /\ (forall r, In r (validRows rs)
                <-> In r rs /\ (status r = Completed
                                \/ nonBlank (content r) = true)).
Proof.
  unfold transcriptPairs. split; [|split; [|split; [|split]]].
  - rewrite length_map. apply slice_last_length.
  - intros i Hi.
    destruct (lookup_lt_is_Some_2 rs (length rs - Nat.min 20 (length rs) + i))
      as [r Hr]; [lia|].
    exists r. split; [exact Hr|].
    now rewrite list_lookup_fmap, slice_last_lookup, Hr.
  - intros Hle. now rewrite slice_last_all.
  - intros Hlt j. rewrite list_lookup_fmap, slice_last_lookup.
    do 2 f_equal. lia.
  - intros r. unfold validRows. rewrite filter_In, orb_true_iff.
    now rewrite bool_decide_eq_true.
Qed.

Lemma transcript_is_last_twenty_witness :
  transcriptPairs (completedSteps 2)
  = map (fun r => (content r, aiInterrogation r)) (completedSteps 2).
Proof.
  apply (transcript_is_last_twenty (completedSteps 2)). simpl. lia.
Defined.

Example transcript_of_two :
  transcript (completedSteps 2)
  = js "User: A" ++ [10%N] ++ js "AI: Why?" ++ [10%N; 10%N]
    ++ js "User: B" ++ [10%N] ++ js "AI: Why?".
Proof. vm_compute. reflexivity. Qed.

(** ** The session invariant *)

Lemma map_only_last (g : ReasoningRow -> ReasoningRow) (id0 : jsstring)
    (done : list ReasoningRow) (cur : ReasoningRow) :
  Forall (fun r => id r <> id0) done ->
  map (fun r => if str_eqb (id r) id0 then g r else r) (done ++ [cur])
  = done ++ [if str_eqb (id cur) id0 then g cur else cur].
Proof. intros H. now rewrite map_app, map_unmatched. Qed.

(** [rows.find] returns the first step with the identifier; when the steps
    before the current one are completed and the step found is not, it is
    the current one, and no earlier step shares its identifier. *)
Lemma find_open_is_current (id0 : jsstring) (done : list ReasoningRow)
    (cur row : ReasoningRow) :
  Forall (fun r => status r = Completed) done ->
  find (fun r => str_eqb (id r) id0) (done ++ [cur]) = Some row ->
  status row <> Completed ->
  row = cur /\ id cur = id0 /\ Forall (fun r => id r <> id0) done.
Proof.
  induction 1 as [|r done Hr _ IH]; simpl; intros Hfind Hst.
  - destruct (str_eqb (id cur) id0) eqn:E; [|discriminate].
    apply str_eqb_eq in E. injection Hfind as <-. auto.
  - destruct (str_eqb (id r) id0) eqn:E.
    + injection Hfind as <-. contradiction.
    + apply str_eqb_neq in E. destruct (IH Hfind Hst) as (? & ? & ?). auto.
Qed.

Lemma completedCount_app (l1 l2 : list ReasoningRow) :
  completedCount (l1 ++ l2) = completedCount l1 + completedCount l2.
Proof. unfold completedCount. now rewrite filter_app, length_app. Qed.

Lemma completedCount_done (done : list ReasoningRow) :
  Forall (fun r => status r = Completed) done ->
  completedCount done = length done.
Proof.
  unfold completedCount. induction 1 as [|r done Hr _ IH]; simpl.
  - reflexivity.
  - rewrite bool_decide_eq_true_2 by exact Hr. simpl. now rewrite IH.
Qed.

Lemma completedCount_session (done : list ReasoningRow) (cur : ReasoningRow) :
  Forall (fun r => status r = Completed) done ->
  status cur <> Completed ->
  completedCount (done ++ [cur]) = length done.
Proof.
  intros Hdone Hcur. rewrite completedCount_app, completedCount_done by easy.
  unfold completedCount. simpl.
  rewrite bool_decide_eq_false_2 by exact Hcur. simpl. lia.
Qed.

Lemma positions_ok_last (done : list ReasoningRow) (cur : ReasoningRow) :
  positions_ok (done ++ [cur]) -> stepNumber cur = length done + 1.
Proof.
  unfold positions_ok. rewrite map_app, length_app. simpl.
  replace (length done + 1) with (S (length done)) by lia.
  rewrite seq_S. intros H. apply app_inj_tail in H as [_ H]. lia.
Qed.

Lemma positions_ok_snoc (rs : list ReasoningRow) (r : ReasoningRow) :
  positions_ok rs -> stepNumber r = length rs + 1 -> positions_ok (rs ++ [r]).
Proof.
  unfold positions_ok. intros H Hr. rewrite map_app, length_app, H. simpl.
  replace (length rs + 1) with (S (length rs)) by lia.
  rewrite seq_S, Hr. do 2 f_equal. lia.
Qed.

Lemma positions_ok_map (f : ReasoningRow -> ReasoningRow)
    (rs : list ReasoningRow) :
  (forall r, stepNumber (f r) = stepNumber r) ->
  positions_ok rs -> positions_ok (map f rs).
Proof.
  unfold positions_ok. intros Hf H. rewrite map_map, length_map, <- H.
  apply map_ext. exact Hf.
Qed.

Lemma critique_ok_status (s : AppState) (done : list ReasoningRow)
    (cur : ReasoningRow) :
  critique_ok s done cur -> status cur = Active \/ status cur = Analyzing.
Proof. intros [[H _]|[H _]]; auto. Qed.

Lemma critique_ok_not_completed (s : AppState) (done : list ReasoningRow)
    (cur : ReasoningRow) :
  critique_ok s done cur -> status cur <> Completed.
Proof. intros H. destruct (critique_ok_status _ _ _ H); congruence. Qed.

Lemma Forall_map_kept {A} (P : A -> Prop) (f : A -> A) (l : list A) :
  (forall x, P x -> P (f x)) -> Forall P l -> Forall P (map f l).
Proof.
  intros Hf. induction 1; simpl; constructor; auto.
Qed.

(** The two shapes of a state that satisfies the invariant. *)
Ltac inv_cases H :=
  destruct H as [Hc Hrows Hres Han Hgr Hload
                | c done cur Hkey Hc Hrows Hdone Hpos Hn Hcrit Hgrad].

Lemma Inv_mount (key : bool) : Inv (mount key).
Proof.
  destruct key; apply Inv_landing; simpl; auto.
Qed.

Lemma Inv_startChallenge (s : AppState) (idx : nat) (uuid : jsstring)
    (s' : AppState) :
  Inv s -> ui (ClickChallenge idx uuid) s = Some s' -> Inv s'.
Proof.
  intros HI. unfold ui, view.
  destruct (apiKey s) eqn:Hkey; simpl; [|discriminate].
  destruct HI as [Hc Hrows Hres Han Hgr Hload | c done cur _ Hc].
  2:{ rewrite Hc. destruct (sessionResult s); discriminate. }
  rewrite Hc.
  destruct (isLoading s && (length (challenges s) =? 0)) eqn:Hoff;
    [discriminate|].
  destruct (challenges s !! idx) as [challenge|] eqn:Hidx; [|discriminate].
  intros [= <-].
  assert (Hl : isLoading s = false /\ loadingChallenges s = 0).
  { destruct Hload as [(_ & Hnil & _)|H]; [|exact H].
    rewrite Hnil in Hidx. discriminate. }
  destruct Hl as [Hl Hn].
  eapply (Inv_session _ challenge [] _); simpl; try reflexivity; auto.
  - left. simpl. auto.
  - right. simpl. auto.
Qed.

Lemma Inv_updateRow (s : AppState) (id0 text : jsstring) :
  Inv s -> Inv (updateRow id0 text s).
Proof.
  set (f := fun row : ReasoningRow =>
              if str_eqb (id row) id0 then with_content text row else row).
  assert (Hid : forall r, id (f r) = id r).
  { intros r. unfold f. now destruct (str_eqb _ _). }
  assert (Hnum : forall r, stepNumber (f r) = stepNumber r).
  { intros r. unfold f. now destruct (str_eqb _ _). }
  assert (Hst : forall r, status (f r) = status r).
  { intros r. unfold f. now destruct (str_eqb _ _). }
  intros [Hc Hrows Hres Han Hgr Hload
         | c done cur Hkey Hc Hrows Hdone Hpos Hn Hcrit Hgrad].
  - apply Inv_landing; simpl; auto. now rewrite Hrows.
  - apply (Inv_session _ c (map f done) (f cur)); simpl; auto.
    + fold f. now rewrite Hrows, map_app.
    + apply Forall_map_kept; [|exact Hdone]. intros r Hr. now rewrite Hst.
    + fold f. now apply positions_ok_map.
    + destruct Hcrit as [[H1 H2]|(H1 & H2 & call & H3 & H4 & H5)];
        [left|right]; simpl; rewrite ?Hst, ?Hid, ?Hnum; repeat split; auto.
      * apply Forall_map_kept; [|exact H2]. intros r Hr. now rewrite Hid.
      * exists call. auto.
    + destruct Hgrad as [H|H]; [left|right]; simpl; auto.
      now rewrite length_map.
Qed.

Lemma Inv_submitRow (s : AppState) (id0 : jsstring) :
  Inv s -> Inv (submitRow id0 s).
Proof.
  intros HI. unfold submitRow.
  destruct (find _ (rows s)) as [row|] eqn:Hfind; [|exact HI].
  destruct (activeChallenge s) as [challenge|] eqn:Hch; [|exact HI].
  destruct (bool_decide (status row <> Active)) eqn:Hact; [exact HI|].
  apply bool_decide_eq_false in Hact.
  assert (Hrow : status row = Active).
  { destruct (decide (status row = Active)); [assumption|contradiction]. }
  inv_cases HI.
  { rewrite Hrows in Hfind. discriminate. }
  rewrite Hrows in Hfind.
  destruct (find_open_is_current _ _ _ _ Hdone Hfind) as (-> & Hid & Hfresh);
    [congruence|].
  assert (Han : analyzing s = []).
  { destruct Hcrit as [[_ H]|[H _]]; [exact H|congruence]. }
  apply (Inv_session _ c done (with_status Analyzing cur)); simpl; auto.
  - rewrite Hrows, map_only_last by exact Hfresh.
    apply str_eqb_eq in Hid. now rewrite Hid.
  - rewrite Hrows. apply positions_ok_map; [|now rewrite <- Hrows].
    intros r. now destruct (str_eqb _ _).
  - right. simpl. repeat split; [now rewrite Hid|].
    rewrite Han. simpl. eexists. split; [reflexivity|]. simpl. auto.
Qed.

Lemma Inv_finishSession (s : AppState) :
  Inv s -> finishDisabled s = false -> Inv (finishSession s).
Proof.
  intros HI Hen. unfold finishSession.
  inv_cases HI.
  { rewrite Hc. now apply Inv_landing. }
  rewrite Hc.
  apply orb_false_iff in Hen as [_ Hcount]. apply Nat.ltb_ge in Hcount.
  rewrite Hrows, completedCount_session in Hcount;
    [|exact Hdone|now apply (critique_ok_not_completed s done)].
  apply (Inv_session _ c done cur); simpl; auto.
  now left.
Qed.

Lemma Inv_challenges_settle (s s' : AppState) (w : World (list Challenge)) :
  Inv s -> loop (ChallengesSettle w) s = Some s' -> Inv s'.
Proof.
  intros HI. unfold loop.
  destruct (loadingChallenges s) as [|n] eqn:Hn; [discriminate|].
  destruct (getSuggestedChallenges_returns w) as [data ->]. simpl.
  intros [= <-].
  destruct HI as [Hc Hrows Hres Han Hgr Hload | c done cur _ _ _ _ _ Hn' _ _];
    [|congruence].
  assert (n = 0) as ->.
  { destruct Hload as [(_ & _ & H)|[_ H]]; lia. }
  apply Inv_landing; destruct (0 <? length data); simpl; auto.
Qed.

Lemma Inv_critique_settles (s s' : AppState) (k : nat) (w : World Analysis)
    (uuid : jsstring) :
  Inv s -> loop (CritiqueSettles k w uuid) s = Some s' -> Inv s'.
Proof.
  intros HI. unfold loop.
  destruct (analyzing s !! k) as [call|] eqn:Hk; [|discriminate].
  cbv zeta.
  set (analysis := interrogateRow _ _ _ _). clearbody analysis.
  inv_cases HI.
  { rewrite Han in Hk. discriminate. }
  destruct Hcrit as [[_ Han]|(Hst & Hfresh & call' & Han & Hid & Hnum)].
  { rewrite Han in Hk. discriminate. }
  rewrite Han in Hk. destruct k as [|k]; [|discriminate].
  injection Hk as <-.
  assert (Hmatch : str_eqb (id cur) (call_id call') = true).
  { apply str_eqb_eq. congruence. }
  rewrite <- Hid in Hfresh.
  destruct analysis as [analysis| |]; simpl; [| |discriminate];
    intros [= <-].
  - apply (Inv_session _ c (done ++ [critiqued analysis cur])
             {| id := uuid; stepNumber := stepNumber (call_row call') + 1;
                content := []; aiInterrogation := None; status := Active;
                depthScore := None |}); simpl; auto.
    + now rewrite Hrows, map_only_last, Hmatch by exact Hfresh.
    + apply Forall_app. split; [exact Hdone|]. now constructor.
    + apply positions_ok_snoc.
      * apply positions_ok_map; [|exact Hpos].
        intros r. now destruct (str_eqb (id r) _).
      * simpl. rewrite length_map, Hnum, Hrows, length_app. simpl.
        rewrite Hrows in Hpos. apply positions_ok_last in Hpos. lia.
    + left. simpl. rewrite Han. auto.
    + destruct Hgrad as [H|H]; [left|right]; simpl; auto.
      rewrite length_app. simpl. lia.
  - apply (Inv_session _ c done (with_status Active cur)); simpl; auto.
    + now rewrite Hrows, map_only_last, Hmatch by exact Hfresh.
    + apply positions_ok_map; [|exact Hpos].
      intros r. now destruct (str_eqb (id r) _).
    + left. simpl. rewrite Han. auto.
Qed.

Lemma Inv_evaluation_settles (s s' : AppState) (k : nat)
    (w : World SessionResult) :
  Inv s -> loop (EvaluationSettles k w) s = Some s' -> Inv s'.
Proof.
  intros HI. unfold loop.
  destruct (grading s !! k) as [call|] eqn:Hk; [|discriminate].
  cbv zeta.
  set (result := evaluateSession _ _ _). clearbody result.
  inv_cases HI.
  { rewrite Hgr in Hk. discriminate. }
  assert (Hlen : 2 <= length done).
  { destruct Hgrad as [H|(_ & _ & H)]; [exact H|].
    rewrite H in Hk. discriminate. }
  destruct result as [result| |]; simpl; [| |discriminate];
    intros [= <-];
    apply (Inv_session _ c done cur); simpl; auto; now left.
Qed.

Lemma Inv_fire (ev : Event) (s s' : AppState) :
  Inv s -> sessionOp ev = true -> fire ev s = Some s' -> Inv s'.
Proof.
  intros HI Hop Hfire. destruct ev as [e|e]; simpl in Hfire.
  - destruct e as [idx uuid|idx value|idx key shiftKey| | |];
      try discriminate Hop.
    + now apply (Inv_startChallenge s idx uuid).
    + unfold ui in Hfire. destruct (view s); try discriminate.
      destruct (rows s !! idx) as [row|]; [|discriminate].
      destruct (isLocked row); [discriminate|].
      injection Hfire as <-. now apply Inv_updateRow.
    + unfold ui in Hfire. destruct (view s); try discriminate.
      destruct (rows s !! idx) as [row|]; [|discriminate].
      destruct (isLocked row); [discriminate|].
      injection Hfire as <-. unfold handleKeyDown.
      destruct key; [|exact HI].
      destruct (negb shiftKey); [|exact HI].
      destruct (nonBlank (content row)); [|exact HI].
      now apply Inv_submitRow.
    + unfold ui in Hfire. destruct (view s); try discriminate.
      destruct (finishDisabled s) eqn:Hdis; [discriminate|].
      injection Hfire as <-. now apply Inv_finishSession.
  - destruct e as [w|k w uuid|k w].
    + now apply (Inv_challenges_settle s s' w).
    + now apply (Inv_critique_settles s s' k w uuid).
    + now apply (Inv_evaluation_settles s s' k w).
Qed.

Lemma Inv_reachable (s : AppState) : reachable s -> Inv s.
Proof.
  induction 1 as [key|ev s s' _ IH Hop Hfire].
  - apply Inv_mount.
  - now apply (Inv_fire ev s s').
Qed.

Lemma reachable_run (trace : list Event) (s s' : AppState) :
  reachable s -> forallb sessionOp trace = true -> run trace s = Some s' ->
  reachable s'.
Proof.
  revert s. induction trace as [|ev trace IH]; simpl; intros s Hs Hops Hrun.
  - now injection Hrun as <-.
  - apply andb_true_iff in Hops as [Hop Hops].
    destruct (fire ev s) as [s1|] eqn:Hfire; [|discriminate].
    apply (IH s1); [|assumption..]. now apply (reachable_fire ev s).
Qed.

(** What the invariant says about a critique in flight. *)
Lemma Inv_in_flight (s : AppState) (k : nat) (call : CritiqueCall) :
  Inv s -> analyzing s !! k = Some call ->
  exists done cur,
    rows s = done ++ [cur]
    /\ Forall (fun r => status r = Completed) done
    /\ Forall (fun r => id r <> call_id call) done
    /\ status cur = Analyzing
    /\ id cur = call_id call
    /\ stepNumber (call_row call) = stepNumber cur
    /\ analyzing s = [call].
Proof.
  intros [Hc Hrows Hres Han Hgr Hload
         | c done cur Hkey Hc Hrows Hdone Hpos Hn Hcrit Hgrad] Hk.
  { rewrite Han in Hk. discriminate. }
  destruct Hcrit as [[_ Han]|(Hst & Hfresh & call' & Han & Hid & Hnum)].
  { rewrite Han in Hk. discriminate. }
  rewrite Han in Hk. destruct k as [|k]; [|discriminate].
  injection Hk as <-. rewrite <- Hid in Hfresh.
  exists done, cur. auto 10.
Qed.

(** C2.  In every state that the application reaches through starting a
    session, editing steps, submitting steps and finishing -- with the
    calls these make settling in between, in any order and at any time --
    the step numbers are 1, 2, ..., N in this order, every step but the
    last is Completed, and the last one is Active or Analyzing. *)
Theorem session_steps_invariant (s : AppState) :
  reachable s ->
  positions_ok (rows s) /\ earlier_completed (rows s) /\ last_open (rows s).
Proof.
  intros Hreach. apply Inv_reachable in Hreach.
  inv_cases Hreach.
  - rewrite Hrows. repeat split.
    + intros i r Hr. discriminate.
    + intros r Hr. discriminate.
  - split; [exact Hpos|]. rewrite Hrows. split.
    + intros i r Hr Hi. rewrite length_app in Hi. simpl in Hi.
      rewrite lookup_app_l in Hr by lia.
      rewrite Forall_forall in Hdone. apply Hdone.
      apply list_elem_of_In. eapply list_elem_of_lookup_2. exact Hr.
    + intros r Hr. rewrite length_app in Hr. simpl in Hr.
      replace (length done + 1 - 1) with (length done + 0) in Hr by lia.
      rewrite lookup_app_r in Hr by lia.
      replace (length done + 0 - length done) with 0 in Hr by lia.
      injection Hr as <-. now apply (critique_ok_status s done).
Qed.

Lemma session_steps_invariant_witness :
  positions_ok (rows sampleState) /\ earlier_completed (rows sampleState)
  /\ last_open (rows sampleState).
Proof.
  apply (session_steps_invariant sampleState).
  apply (reachable_run sampleTrace (mount true)).
  - apply reachable_mount.
  - reflexivity.
  - vm_compute. reflexivity.
Defined.

(** Against C3 as stated: in [leftState], which the user reaches by
    leaving a session whose step is being analyzed and starting another
    one, the critique call of the submitted step is in flight and returns,
    and afterwards no step carries the returned critique: the submitted
    step is not in the list any more. *)
Lemma critique_return_after_leaving :
  run leftTrace (mount true) = Some leftState
  /\ ~ (forall (s : AppState) (k : nat) (call : CritiqueCall)
           (w : World Analysis) (uuid : jsstring) (analysis : Analysis),
         analyzing s !! k = Some call ->
         interrogateRow w (content (call_row call)) (call_previousRows call)
           (call_challenge call) = Returns analysis ->
         exists s' i r,
           loop (CritiqueSettles k w uuid) s = Some s'
           /\ rows s' !! i = Some r
           /\ id r = call_id call
           /\ status r = Completed
           /\ aiInterrogation r = Some (text analysis)).
Proof.
  split; [vm_compute; reflexivity|].
  intros H.
  destruct (H leftState 0 leftCall (sampleWorld hashRing) (js "b") hashRing)
    as (s' & i & r & Hloop & Hi & _ & Hst & _).
  - vm_compute. reflexivity.
  - reflexivity.
  - vm_compute in Hloop. injection Hloop as <-.
    destruct i as [|[|i]]; simpl in Hi; [| |discriminate Hi];
      injection Hi as <-; discriminate Hst.
Qed.

(** C3, as the code has it.  When the critique call of a submitted step
    returns -- with the service's answer or with the fallback -- every
    step that carries the submitted identifier becomes Completed with
    exactly the text and the depth score that were returned, its content
    as it was, and the steps with another identifier are untouched: this
    in every state.  When the submitted step is still the last step of the
    list and the only one with its identifier, the list afterwards is the
    earlier steps as they were, that step completed, and exactly one new
    step, Active and empty, whose number is the number of the submitted
    step plus one.  That is the case in every state reached by the four
    operations, where the submitted step is Analyzing until then and no
    critique is in flight afterwards; it is also the case after a click on
    the header alone. *)
Theorem critique_return_completes_step (s : AppState) (k : nat)
    (call : CritiqueCall) (w : World Analysis) (uuid : jsstring)
    (analysis : Analysis) :
  analyzing s !! k = Some call ->
  interrogateRow w (content (call_row call)) (call_previousRows call)
    (call_challenge call) = Returns analysis ->
  exists s',
    loop (CritiqueSettles k w uuid) s = Some s'
    /\ (forall i r, rows s !! i = Some r -> id r = call_id call ->
          rows s' !! i
          = Some {| id := id r; stepNumber := stepNumber r;
                    content := content r;
                    aiInterrogation := Some (text analysis);
                    status := Completed;
                    depthScore := Some (analysis_depthScore analysis) |})
    /\ (forall i r, rows s !! i = Some r -> id r <> call_id call ->
          rows s' !! i = Some r)
    /\ (forall done cur,
          rows s = done ++ [cur] ->
          id cur = call_id call ->
          stepNumber cur = stepNumber (call_row call) ->
          Forall (fun r => id r <> call_id call) done ->
          rows s'
          = done
            ++ [ {| id := id cur; stepNumber := stepNumber cur;
                    content := content cur;
                    aiInterrogation := Some (text analysis);
                    status := Completed;
                    depthScore := Some (analysis_depthScore analysis) |};
                 {| id := uuid; stepNumber := stepNumber cur + 1;
                    content := []; aiInterrogation := None;
                    status := Active; depthScore := None |} ])
    /\ (reachable s ->
        exists done cur,
          rows s = done ++ [cur]
          /\ status cur = Analyzing /\ id cur = call_id call
          /\ stepNumber cur = stepNumber (call_row call)
          /\ Forall (fun r => id r <> call_id call) done
          /\ rows s'
             = done
               ++ [ {| id := id cur; stepNumber := stepNumber cur;
                       content := content cur;
                       aiInterrogation := Some (text analysis);
                       status := Completed;
                       depthScore := Some (analysis_depthScore analysis) |};
                    {| id := uuid; stepNumber := stepNumber cur + 1;
                       content := []; aiInterrogation := None;
                       status := Active; depthScore := None |} ]
          /\ analyzing s' = []).
Proof.
  intros Hk Hret.
  assert (Hlast : forall done cur,
             rows s = done ++ [cur] -> id cur = call_id call ->
             stepNumber cur = stepNumber (call_row call) ->
             Forall (fun r => id r <> call_id call) done ->
             map (fun r => if str_eqb (id r) (call_id call)
                           then critiqued analysis r else r) (rows s)
             ++ [ {| id := uuid; stepNumber := stepNumber (call_row call) + 1;
                     content := []; aiInterrogation := None;
                     status := Active; depthScore := None |} ]
             = done ++ [ critiqued analysis cur;
                         {| id := uuid; stepNumber := stepNumber cur + 1;
                            content := []; aiInterrogation := None;
                            status := Active; depthScore := None |} ]).
  { intros done cur Hrows Hid Hnum Hfresh.
    rewrite Hrows, map_only_last by exact Hfresh.
    apply str_eqb_eq in Hid. now rewrite Hid, Hnum, <- app_assoc. }
  eexists. split.
  { unfold loop. rewrite Hk. cbv zeta. rewrite Hret. reflexivity. }
  simpl. split; [|split; [|split]].
  - intros i r Hr Hid.
    rewrite lookup_app_l
      by (rewrite length_map; now apply lookup_lt_Some in Hr).
    rewrite list_lookup_fmap, Hr. simpl.
    apply str_eqb_eq in Hid. now rewrite Hid.
  - intros i r Hr Hid.
    rewrite lookup_app_l
      by (rewrite length_map; now apply lookup_lt_Some in Hr).
    rewrite list_lookup_fmap, Hr. simpl.
    apply str_eqb_neq in Hid. now rewrite Hid.
  - exact Hlast.
  - intros Hreach. apply Inv_reachable in Hreach.
    destruct (Inv_in_flight s k call Hreach Hk)
      as (done & cur & Hrows & Hdone & Hfresh & Hst & Hid & Hnum & Han).
    exists done, cur. repeat split; try assumption; try congruence.
    + now apply Hlast.
    + rewrite Han in *. destruct k; [reflexivity|discriminate].
Qed.

Lemma critique_return_completes_step_witness :
  (exists s',
     loop (CritiqueSettles 0 (sampleWorld hashRing) (js "c")) sampleState
     = Some s'
     /\ map status (rows s') = [Completed; Completed; Active])
  /\ (exists s',
        loop (CritiqueSettles 0 (sampleWorld hashRing) (js "c")) awayState
        = Some s'
        /\ map (fun r => (stepNumber r, status r)) (rows s')
           = [(1, Completed); (2, Completed); (3, Active)]).
Proof.
  split.
  - destruct (critique_return_completes_step sampleState 0 sampleCall
                (sampleWorld hashRing) (js "c") hashRing)
      as (s' & Hloop & _ & _ & _ & Hreach).
    + vm_compute. reflexivity.
    + reflexivity.
    + exists s'. split; [exact Hloop|].
      destruct Hreach as (done & cur & Hrows & _ & _ & _ & _ & Hrows' & _).
      * apply (reachable_run sampleTrace (mount true)).
        -- apply reachable_mount.
        -- reflexivity.
        -- vm_compute. reflexivity.
      * rewrite Hrows', map_app.
        assert (Hd : map status (rows sampleState) = [Completed; Analyzing])
          by (vm_compute; reflexivity).
        rewrite Hrows, map_app in Hd. simpl in Hd.
        change [Completed; Analyzing] with ([Completed] ++ [Analyzing]) in Hd.
        apply app_inj_tail in Hd as [-> _]. reflexivity.
  - destruct (critique_return_completes_step awayState 0 sampleCall
                (sampleWorld hashRing) (js "c") hashRing)
      as (s' & Hloop & _ & _ & Hlast & _).
    + vm_compute. reflexivity.
    + reflexivity.
    + exists s'. split; [exact Hloop|].
      rewrite (Hlast (call_previousRows sampleCall)
                 (with_status Analyzing (call_row sampleCall))).
      * reflexivity.
      * vm_compute. reflexivity.
      * reflexivity.
      * reflexivity.
      * repeat constructor. discriminate.
Defined.

(** After a click on the header alone the steps of the session are still
    in the list, and the critique that returns completes its step: the
    landing view is shown meanwhile. *)
Example critique_return_after_logo :
  view awayState = Landing
  /\ option_map (fun s => map (fun r => (stepNumber r, status r)) (rows s))
       (loop (CritiqueSettles 0 (sampleWorld hashRing) (js "c")) awayState)
     = Some [(1, Completed); (2, Completed); (3, Active)].
Proof. split; vm_compute; reflexivity. Qed.

(** C6.  When the critique call throws -- which [interrogateRow] does when
    [getAI] finds no API key, before [withTimeout] is reached -- the
    [catch] block of [submitRow] runs: every step with the submitted
    identifier is Active again, its content and other fields as they were;
    the other steps are untouched; and the list is as long as before, so no
    step is appended.  In a session the submitted step is the last one and
    is Analyzing until then. *)
Theorem critique_failure_reverts (s : AppState) (k : nat) (call : CritiqueCall)
    (w : World Analysis) (uuid : jsstring) :
  analyzing s !! k = Some call ->
  interrogateRow w (content (call_row call)) (call_previousRows call)
    (call_challenge call) = Throws ->
  exists s', loop (CritiqueSettles k w uuid) s = Some s'
    /\ length (rows s') = length (rows s)
    /\ (forall i r, rows s !! i = Some r -> id r = call_id call ->
          exists r', rows s' !! i = Some r'
                     /\ status r' = Active /\ content r' = content r
                     /\ id r' = id r /\ stepNumber r' = stepNumber r)
    /\ (forall i r, rows s !! i = Some r -> id r <> call_id call ->
          rows s' !! i = Some r)
    /\ (reachable s ->
        exists done cur,
          rows s = done ++ [cur]
          /\ id cur = call_id call /\ status cur = Analyzing
          /\ rows s'
             = done ++ [ {| id := id cur; stepNumber := stepNumber cur;
                            content := content cur;
                            aiInterrogation := aiInterrogation cur;
                            status := Active;
                            depthScore := depthScore cur |} ]).
Proof.
  intros Hk Hthrows. unfold loop. rewrite Hk. cbv zeta. rewrite Hthrows.
  simpl. eexists. split; [reflexivity|]. simpl.
  split; [|split; [|split]].
  - apply length_map.
  - intros i r Hr Hid. rewrite list_lookup_fmap, Hr. simpl.
    apply str_eqb_eq in Hid. rewrite Hid. eauto 10.
  - intros i r Hr Hid. rewrite list_lookup_fmap, Hr. simpl.
    apply str_eqb_neq in Hid. now rewrite Hid.
  - intros Hreach. apply Inv_reachable in Hreach.
    destruct (Inv_in_flight s k call Hreach Hk)
      as (done & cur & Hrows & _ & Hfresh & Hst & Hid & _).
    exists done, cur. repeat split; try assumption.
    rewrite Hrows, map_only_last by exact Hfresh.
    apply str_eqb_eq in Hid. now rewrite Hid.
Qed.

Lemma critique_failure_reverts_witness :
  exists s' done cur,
    loop (CritiqueSettles 0 noKey (js "c")) sampleState = Some s'
    /\ length (rows s') = length (rows sampleState)
    /\ rows sampleState = done ++ [cur] /\ status cur = Analyzing.
Proof.
  destruct (critique_failure_reverts sampleState 0 sampleCall noKey (js "c"))
    as (s' & Hloop & Hlen & _ & _ & Hlast).
  - vm_compute. reflexivity.
  - reflexivity.
  - destruct Hlast as (done & cur & Hrows & _ & Hst & _).
    + apply (reachable_run sampleTrace (mount true)).
      * apply reachable_mount.
      * reflexivity.
      * vm_compute. reflexivity.
    + exists s', done, cur. auto.
Defined.

Example critique_failure_sample :
  option_map (fun s => (map (fun r => (status r, content r)) (rows s),
                        length (analyzing s), length (alerts s)))
    (loop (CritiqueSettles 0 noKey (js "c")) sampleState)
  = Some ([(Completed, js "use a hash ring for sharding");
           (Active, js "replicate each shard three times")], 0, 1).
Proof. vm_compute. reflexivity. Qed.

(** The scenario of the specification: the first step, the mocked reply,
    the second step. *)
Example hash_ring_scenario :
  option_map (fun s =>
      map (fun r => (stepNumber r, status r, content r, aiInterrogation r,
                     depthScore r)) (rows s))
    (run [ Loop (ChallengesSettle (sampleWorld FALLBACK_CHALLENGES));
           User (ClickChallenge 0 (js "a"));
           User (Change 0 (js "use a hash ring for sharding"));
           User (KeyDown 0 Enter false);
           Loop (CritiqueSettles 0 (sampleWorld hashRing) (js "b")) ]
       (mount true))
  = Some [ (1, Completed, js "use a hash ring for sharding",
            Some (js "Why hash ring over range sharding?"), Some 7%Z);
           (2, Active, [], None, None) ].
Proof. vm_compute. reflexivity. Qed.

(** ** The gate on finishing *)

Lemma submitRow_frame (s : AppState) (id0 : jsstring) :
  isLoading (submitRow id0 s) = isLoading s
  /\ sessionResult (submitRow id0 s) = sessionResult s.
Proof.
  unfold submitRow. destruct (find _ _); [|auto].
  destruct (activeChallenge s); [|auto].
  now destruct (bool_decide _).
Qed.

(** A step that brings the number of completed steps to two finds no
    grading under way and no result stored. *)
Lemma second_completion_is_quiet (ev : Event) (s0 s : AppState) :
  Inv s0 -> sessionOp ev = true -> fire ev s0 = Some s ->
  completedCount (rows s0) < 2 -> completedCount (rows s) = 2 ->
  isLoading s = false /\ sessionResult s = None.
Proof.
  intros HI Hop Hfire Hlt Htwo.
  inv_cases HI.
  - (* before the session: no step can be completed by one event *)
    exfalso. destruct ev as [e|e]; simpl in Hfire.
    + unfold ui, view in Hfire. rewrite Hc in Hfire.
      destruct (apiKey s0); simpl in Hfire; [|discriminate].
      destruct e; try discriminate.
      destruct (_ && _); [discriminate|].
      destruct (challenges s0 !! idx); [|discriminate].
      injection Hfire as <-. discriminate Htwo.
    + unfold loop in Hfire. destruct e as [w|k w uuid|k w].
      * destruct (loadingChallenges s0); [discriminate|].
        destruct (getSuggestedChallenges_returns w) as [data Hdata].
        rewrite Hdata in Hfire. simpl in Hfire. injection Hfire as <-.
        destruct (0 <? length data); simpl in Htwo;
          rewrite Hrows in Htwo; discriminate.
      * rewrite Han in Hfire. discriminate.
      * rewrite Hgr in Hfire. discriminate.
  - assert (Hcount : completedCount (rows s0) = length done).
    { rewrite Hrows. apply completedCount_session; [exact Hdone|].
      now apply (critique_ok_not_completed s0 done). }
    destruct Hgrad as [Hge|(Hload & Hres & Hgr)]; [lia|].
    destruct ev as [e|e]; simpl in Hfire.
    + unfold ui in Hfire.
      destruct e as [idx uuid|idx value|idx key shiftKey| | |];
        try discriminate Hop.
      * unfold view in Hfire. rewrite Hkey, Hc in Hfire. simpl in Hfire.
        destruct (sessionResult s0); discriminate.
      * destruct (view s0); try discriminate.
        destruct (rows s0 !! idx) as [row|]; [|discriminate].
        destruct (isLocked row); [discriminate|].
        injection Hfire as <-. simpl. auto.
      * destruct (view s0); try discriminate.
        destruct (rows s0 !! idx) as [row|]; [|discriminate].
        destruct (isLocked row); [discriminate|].
        injection Hfire as <-. unfold handleKeyDown.
        destruct key; [|auto]. destruct (negb shiftKey); [|auto].
        destruct (nonBlank (content row)); [|auto].
        destruct (submitRow_frame s0 (id row)) as [-> ->]. auto.
      * destruct (view s0); try discriminate.
        unfold finishDisabled in Hfire.
        apply Nat.ltb_lt in Hlt. rewrite Hlt, orb_true_r in Hfire.
        discriminate.
    + unfold loop in Hfire. destruct e as [w|k w uuid|k w].
      * rewrite Hn in Hfire. discriminate.
      * destruct (analyzing s0 !! k) as [call|]; [|discriminate].
        cbv zeta in Hfire. destruct (interrogateRow _ _ _ _);
          simpl in Hfire; [| |discriminate];
          injection Hfire as <-; simpl; auto.
      * rewrite Hgr in Hfire. discriminate.
Qed.

(** C5.  The button that calls [finishSession] is disabled, and a click on
    it does nothing, whenever fewer than two steps are Completed.  The
    moment the second step is completed the button is enabled and a click
    calls [finishSession].  From two completed steps on, the button is
    disabled only while [isLoading] is set, that is while a session is
    being graded. *)
Theorem finish_gate (s : AppState) :
  (completedCount (rows s) < 2 ->
     finishDisabled s = true /\ ui ClickFinish s = None)
  /\ (forall ev s0,
        reachable s0 -> sessionOp ev = true -> fire ev s0 = Some s ->
        completedCount (rows s0) < 2 -> completedCount (rows s) = 2 ->
        finishDisabled s = false
        /\ ui ClickFinish s = Some (finishSession s))
  /\ (2 <= completedCount (rows s) -> finishDisabled s = isLoading s).
Proof.
  split; [|split].
  - intros Hlt. apply Nat.ltb_lt in Hlt.
    assert (Hdis : finishDisabled s = true).
    { unfold finishDisabled. rewrite Hlt. apply orb_true_r. }
    split; [exact Hdis|]. unfold ui. rewrite Hdis.
    now destruct (view s).
  - intros ev s0 Hreach Hop Hfire Hlt Htwo.
    apply Inv_reachable in Hreach.
    destruct (second_completion_is_quiet ev s0 s Hreach Hop Hfire Hlt Htwo)
      as [Hload Hres].
    assert (Hen : finishDisabled s = false).
    { unfold finishDisabled. rewrite Hload, Htwo. reflexivity. }
    split; [exact Hen|].
    destruct (Inv_fire ev s0 s Hreach Hop Hfire)
      as [_ Hrows _ _ _ _ | c done cur Hkey Hc _ _ _ _ _ _].
    { rewrite Hrows in Htwo. discriminate. }
    unfold ui, view. now rewrite Hkey, Hc, Hres, Hen.
  - intros Hge. unfold finishDisabled.
    apply Nat.ltb_ge in Hge. rewrite Hge. apply orb_false_r.
Qed.

Lemma finish_gate_witness :
  (finishDisabled sampleState = true /\ ui ClickFinish sampleState = None)
  /\ finishDisabled sampleState2 = false
  /\ ui ClickFinish sampleState2 = Some (finishSession sampleState2).
Proof.
  split.
  - apply (finish_gate sampleState). vm_compute. lia.
  - apply (finish_gate sampleState2) with (ev := secondCritique)
                                          (s0 := sampleState).
    + apply (reachable_run sampleTrace (mount true)).
      * apply reachable_mount.
      * reflexivity.
      * vm_compute. reflexivity.
    + reflexivity.
    + vm_compute. reflexivity.
    + vm_compute. lia.
    + vm_compute. reflexivity.
Defined.

Example finish_gate_samples :
  map (fun s => (completedCount (rows s), finishDisabled s))
      [sampleState; sampleState2; finishSession sampleState2]
  = [(1, true); (2, false); (2, true)].
Proof. vm_compute. reflexivity. Qed.

(** ** Outside the four operations *)

(** The scenario of the specification: two steps, then finish, with an
    evaluator that answers too late. *)
Example finish_with_slow_evaluator :
  option_map (fun s => (sessionResult s, isLoading s, length (grading s)))
    (run [ secondCritique; User ClickFinish;
           Loop (EvaluationSettles 0 (slowWorld goodResult)) ] sampleState)
  = Some (Some fallbackResult, false, 0).
Proof. vm_compute. reflexivity. Qed.

(** The continuation of [submitRow] appends its step whatever has become
    of the session.  When the user leaves through the header while a
    critique is in flight and starts again, the new session receives the
    step: two Active steps.  The header's click is not one of the four
    operations of [reachable]. *)
Example late_critique_after_leaving :
  option_map (fun s => map (fun r => (id r, stepNumber r, status r)) (rows s))
    (run leavingTrace (mount true))
  = Some [ (js "x", 1, Active); (js "b", 2, Active) ]
  /\ forallb sessionOp leavingTrace = false.
Proof. split; vm_compute; reflexivity. Qed.

(** * More properties *)

(** ** The three service calls under their deadlines *)

Lemma guarded_result {T} (fallback : T) (ms : N) (w : World T) :
  withTimeout (parsed fallback (generateContent w)) ms fallback
    (promise_first w)
  = Some (default fallback (accepted ms w)).
Proof.
  unfold accepted.
  destruct (generateContent w) as [t [| |data]|t|] eqn:Hg; simpl parsed.
  - destruct ((t <? ms) || ((t =? ms) && promise_first w))%N eqn:E.
    + now rewrite (withTimeout_promise_first _ _ _ _ t).
    + rewrite withTimeout_timer_first; [reflexivity|]. simpl. exact E.
  - destruct ((t <? ms) || ((t =? ms) && promise_first w))%N eqn:E.
    + now rewrite (withTimeout_promise_first _ _ _ _ t).
    + rewrite withTimeout_timer_first; [reflexivity|]. simpl. exact E.
  - destruct ((t <? ms) || ((t =? ms) && promise_first w))%N eqn:E.
    + now rewrite (withTimeout_promise_first _ _ _ _ t).
    + rewrite withTimeout_timer_first; [reflexivity|]. simpl. exact E.
  - destruct ((t <? ms) || ((t =? ms) && promise_first w))%N eqn:E.
    + now rewrite (withTimeout_promise_first _ _ _ _ t).
    + rewrite withTimeout_timer_first; [reflexivity|]. simpl. exact E.
  - now rewrite withTimeout_timer_first.
Qed.

Lemma guards_intro {T} (call : World T -> Completion T) (ms : N)
    (fallback : T) :
  (forall w, API_KEY w = true ->
     call w = Returns (default fallback (accepted ms w))) ->
  guards call ms fallback.
Proof.
  intros Hcall w Hkey. rewrite (Hcall w Hkey). unfold accepted.
  repeat split.
  - intros t data -> Hlt. apply N.ltb_lt in Hlt. now rewrite Hlt.
  - intros t data -> Hlt.
    replace (t <? ms)%N with false by (symmetry; apply N.ltb_ge; lia).
    replace (t =? ms)%N with false by (symmetry; apply N.eqb_neq; lia).
    reflexivity.
  - now intros t ->.
  - now intros t ->.
  - now intros t ->.
  - now intros ->.
Qed.

(** X1.  [getSuggestedChallenges] returns a catalog in every world: the
    hardcoded one, of three challenges, without a key; with a key the list
    of the service when it is well-formed and comes within 1.5 s, and the
    hardcoded one when the answer is late, malformed, without text,
    refused or never comes. *)
Theorem getSuggestedChallenges_outcomes :
  guards getSuggestedChallenges 1500 FALLBACK_CHALLENGES
  /\ (forall w, API_KEY w = false ->
        getSuggestedChallenges w = Returns FALLBACK_CHALLENGES)
  /\ length FALLBACK_CHALLENGES = 3.
Proof.
  split; [|split; [|reflexivity]].
  - apply guards_intro. intros w Hkey.
    unfold getSuggestedChallenges, getAI.
    now rewrite Hkey, guarded_result.
  - intros w Hkey. unfold getSuggestedChallenges, getAI. now rewrite Hkey.
Qed.

(** X2.  With a key [interrogateRow] never throws: it returns the
    critique of the service when it is well-formed and comes within 4 s,
    and otherwise the fixed follow-up question with depth score 5. *)
Theorem interrogateRow_outcomes (input : jsstring)
    (history : list ReasoningRow) (challenge : Challenge) :
  guards (fun w => interrogateRow w input history challenge) 4000
    fallbackResponse
  /\ analysis_depthScore fallbackResponse = 5%Z.
Proof.
  split; [|reflexivity].
  apply guards_intro. intros w Hkey.
  unfold interrogateRow, getAI. now rewrite Hkey, guarded_result.
Qed.

(** X3.  With a key [evaluateSession] never throws: it returns the report
    of the service when it is well-formed and comes within 8 s, and
    otherwise the fallback report, with score 0. *)
Theorem evaluateSession_outcomes (rs : list ReasoningRow)
    (challenge : Challenge) :
  guards (fun w => evaluateSession w rs challenge) 8000 fallbackResult
  /\ score fallbackResult = 0%Z.
Proof.
  split; [|reflexivity].
  apply guards_intro. intros w Hkey.
  unfold evaluateSession, getAI. now rewrite Hkey, guarded_result.
Qed.

Example deadlines_at_two_seconds :
  let w T (data : T) : World T :=
    {| API_KEY := true; generateContent := Resolves 2000 (Json data);
       promise_first := true |} in
  getSuggestedChallenges (w _ []) = Returns FALLBACK_CHALLENGES
  /\ interrogateRow (w _ hashRing) [] [] sampleChallenge = Returns hashRing
  /\ evaluateSession (w _ goodResult) [] sampleChallenge = Returns goodResult.
Proof. repeat split. Qed.

Lemma getSuggestedChallenges_outcomes_witness :
  getSuggestedChallenges (sampleWorld [sampleChallenge])
  = Returns [sampleChallenge]
  /\ getSuggestedChallenges (slowWorld [sampleChallenge])
     = Returns FALLBACK_CHALLENGES
  /\ getSuggestedChallenges noKey = Returns FALLBACK_CHALLENGES.
Proof.
  destruct getSuggestedChallenges_outcomes as (Hg & Hno & _).
  split; [|split].
  - destruct (Hg (sampleWorld [sampleChallenge]) eq_refl) as (H & _).
    apply (H 300%N); [reflexivity | reflexivity].
  - destruct (Hg (slowWorld [sampleChallenge]) eq_refl) as (_ & H & _).
    apply (H 9000%N [sampleChallenge]); [reflexivity | reflexivity].
  - apply Hno. reflexivity.
Defined.

Lemma interrogateRow_outcomes_witness :
  interrogateRow (sampleWorld hashRing) [] [] sampleChallenge = Returns hashRing
  /\ interrogateRow (slowWorld hashRing) [] [] sampleChallenge
     = Returns fallbackResponse.
Proof.
  destruct (interrogateRow_outcomes [] [] sampleChallenge) as (Hg & _).
  split.
  - destruct (Hg (sampleWorld hashRing) eq_refl) as (H & _).
    apply (H 300%N); [reflexivity | reflexivity].
  - destruct (Hg (slowWorld hashRing) eq_refl) as (_ & H & _).
    apply (H 9000%N hashRing); [reflexivity | reflexivity].
Defined.

Lemma evaluateSession_outcomes_witness :
  evaluateSession (sampleWorld goodResult) (completedSteps 2) sampleChallenge
  = Returns goodResult
  /\ evaluateSession (slowWorld goodResult) (completedSteps 2) sampleChallenge
     = Returns fallbackResult.
Proof.
  destruct (evaluateSession_outcomes (completedSteps 2) sampleChallenge)
    as (Hg & _).
  split.
  - destruct (Hg (sampleWorld goodResult) eq_refl) as (H & _).
    apply (H 300%N); [reflexivity | reflexivity].
  - destruct (Hg (slowWorld goodResult) eq_refl) as (_ & H & _).
    apply (H 9000%N goodResult); [reflexivity | reflexivity].
Defined.

(** ** The prompt of a critique *)

Lemma slice_last_app {A} (n : nat) (older recent : list A) :
  n <= length recent -> slice_last n (older ++ recent) = slice_last n recent.
Proof.
  intros Hn. unfold slice_last. rewrite length_app.
  rewrite drop_app_ge by lia. f_equal. lia.
Qed.

(** X4.  The prompt of [interrogateRow] quotes at most the last three
    steps of the history, one line each, and it is the same prompt
    whatever came before those three. *)
Theorem interrogationPrompt_last_three (input : jsstring)
    (older recent : list ReasoningRow) (challenge : Challenge) :
  3 <= length recent ->
  interrogationPrompt input (older ++ recent) challenge
  = interrogationPrompt input recent challenge
  /\ length (recentHistory (older ++ recent)) = 3
  /\ recentHistory (older ++ recent) = drop (length recent - 3) recent.
Proof.
  intros Hlen.
  assert (H : recentHistory (older ++ recent) = recentHistory recent).
  { unfold recentHistory. now apply slice_last_app. }
  split; [|split].
  - unfold interrogationPrompt, historyText. now rewrite H.
  - rewrite H. unfold recentHistory. rewrite slice_last_length. lia.
  - rewrite H. reflexivity.
Qed.

Lemma interrogationPrompt_last_three_witness :
  interrogationPrompt (js "x") (completedSteps 5) sampleChallenge
  = interrogationPrompt (js "x") (drop 2 (completedSteps 5)) sampleChallenge.
Proof.
  apply (interrogationPrompt_last_three (js "x") (take 2 (completedSteps 5))
           (drop 2 (completedSteps 5)) sampleChallenge).
  simpl. lia.
Defined.

Example historyText_of_five :
  historyText (completedSteps 5)
  = js "Step 3: C" ++ [10%N] ++ js "Step 4: D" ++ [10%N] ++ js "Step 5: E".
Proof. vm_compute. reflexivity. Qed.

(** ** Numbers as text *)

Lemma codes_uint_uint_codes (d : Decimal.uint) :
  codes_uint (uint_codes d) = Some d.
Proof.
  induction d; simpl; [reflexivity|..];
    match goal with H : codes_uint _ = _ |- _ => now rewrite H end.
Qed.

Lemma parseDigits_numberToString (n : nat) :
  parseDigits (numberToString n) = Some n.
Proof.
  unfold parseDigits, numberToString. rewrite codes_uint_uint_codes. simpl.
  now rewrite DecimalNat.Unsigned.of_to.
Qed.

Lemma parseDigits_leading_zero (s : jsstring) :
  parseDigits (48%N :: s) = parseDigits s.
Proof.
  unfold parseDigits. simpl. destruct (codes_uint s); reflexivity.
Qed.

Lemma numberToString_short (n : nat) :
  length (numberToString n) < 2 -> n < 10.
Proof.
  unfold numberToString. intros Hlen.
  rewrite <- (DecimalNat.Unsigned.of_to n).
  destruct (Nat.to_uint n) as [|u|u|u|u|u|u|u|u|u|u];
    try (destruct u; simpl in Hlen; [cbv; lia | lia..]).
  cbv. lia.
Qed.

(** X5.  The step indicator of a row is the step number in decimal, with
    a zero in front of a single digit: it has at least two characters, it
    reads back as the step number, so that steps with different numbers
    have different indicators, and a number of two digits or more is shown
    in full. *)
Theorem stepLabel_reads_back (row : ReasoningRow) :
  2 <= length (stepLabel row)
  /\ parseDigits (stepLabel row) = Some (stepNumber row)
  /\ (forall row', stepLabel row = stepLabel row' ->
        stepNumber row = stepNumber row')
  /\ (10 <= stepNumber row -> stepLabel row = numberToString (stepNumber row))
  /\ (stepNumber row < 10 ->
        stepLabel row = [48%N; (48 + N.of_nat (stepNumber row))%N]).
Proof.
  assert (Hparse : forall r, parseDigits (stepLabel r) = Some (stepNumber r)).
  { intros r. unfold stepLabel, padStart.
    destruct (2 - length (numberToString (stepNumber r)))
      as [|[|[|k]]] eqn:E; simpl;
      rewrite ?parseDigits_leading_zero; try apply parseDigits_numberToString.
    lia. }
  split; [|split; [|split; [|split]]].
  - unfold stepLabel, padStart. rewrite length_app, repeat_length. lia.
  - apply Hparse.
  - intros row' Heq.
    assert (H : Some (stepNumber row) = Some (stepNumber row'))
      by (rewrite <- !Hparse; now rewrite Heq).
    now injection H.
  - intros Hge. unfold stepLabel, padStart.
    destruct (Nat.lt_ge_cases (length (numberToString (stepNumber row))) 2)
      as [Hlt|Hle].
    + apply numberToString_short in Hlt. lia.
    + now replace (2 - length (numberToString (stepNumber row))) with 0 by lia.
  - intros Hlt. unfold stepLabel.
    destruct (stepNumber row) as [|[|[|[|[|[|[|[|[|[|n]]]]]]]]]];
      try reflexivity. lia.
Qed.

Lemma stepLabel_reads_back_witness :
  stepLabel (openStep []) = js "01"
  /\ parseDigits (stepLabel (openStep [])) = Some 1.
Proof.
  destruct (stepLabel_reads_back (openStep [])) as (_ & Hp & _ & _ & Hs).
  split; [|exact Hp]. apply Hs. simpl. lia.
Defined.

(** ** The identifier generator *)

Lemma toString16_digit (v : N) :
  (v < 16)%N -> toString16 v = [hexDigit v] /\ isHexDigit (hexDigit v) = true.
Proof.
  intros Hv. remember (N.to_nat v) as n eqn:Hn.
  assert (Hv' : v = N.of_nat n) by lia. subst v. clear Hn.
  do 16 (destruct n as [|n]; [split; reflexivity|]). lia.
Qed.

Lemma variant_nibble (r : N) :
  (r < 16)%N ->
  let v := N.lor (N.land r 0x3) 0x8 in
  (v < 16)%N /\ In (hexDigit v) [56; 57; 97; 98]%N.
Proof.
  intros Hr. remember (N.to_nat r) as n eqn:Hn.
  assert (Hr' : r = N.of_nat n) by lia. subst r. clear Hn.
  do 16 (destruct n as [|n]; [split; [reflexivity | cbv; tauto]|]). lia.
Qed.


Lemma replaceXY_fillXY (draw : nat -> N) (s : jsstring) (k : nat) :
  (forall k, (draw k < 16)%N) -> replaceXY draw k s = fillXY draw k s.
Proof.
  intros Hdraw. revert k. induction s as [|c s IH]; intros k; simpl.
  - reflexivity.
  - destruct ((c =? 120) || (c =? 121))%N; [|now rewrite IH].
    rewrite IH. destruct (c =? 120)%N.
    + now rewrite (proj1 (toString16_digit _ (Hdraw k))).
    + now rewrite (proj1 (toString16_digit _
                            (proj1 (variant_nibble _ (Hdraw k))))).
Qed.

(** X6.  Where there is no [crypto.randomUUID], [safeUUID] builds a
    version-4 identifier: thirty-six characters, hyphens at positions 8,
    13, 18 and 23, the digit 4 at position 14, one of 8, 9, a, b at
    position 19, and lowercase hexadecimal digits everywhere else. *)
Theorem safeUUID_is_version_4 (draw : nat -> N) :
  (forall k, (draw k < 16)%N) ->
  length (safeUUID None draw) = 36
  /\ (forall i, In i [8; 13; 18; 23] -> safeUUID None draw !! i = Some 45%N)
  /\ safeUUID None draw !! 14 = Some 52%N
  /\ (exists c, safeUUID None draw !! 19 = Some c
                /\ In c [56; 57; 97; 98]%N)
  /\ (forall i c, safeUUID None draw !! i = Some c ->
        ~ In i [8; 13; 18; 23] -> isHexDigit c = true).
Proof.
  intros Hdraw. unfold safeUUID. rewrite replaceXY_fillXY by exact Hdraw.
  let t := eval cbv -[hexDigit N.lor N.land] in (fillXY draw 0 uuidTemplate)
  in change (fillXY draw 0 uuidTemplate) with t.
  split; [reflexivity|]. split; [|split; [reflexivity|split]].
  - intros i Hi. simpl in Hi.
    destruct Hi as [<-|[<-|[<-|[<-|[]]]]]; reflexivity.
  - eexists. split; [reflexivity|]. apply variant_nibble, Hdraw.
  - intros i c Hi Hn.
    do 36 (destruct i as [|i];
           [ injection Hi as <-;
             first [ apply toString16_digit, Hdraw
                   | apply toString16_digit, variant_nibble, Hdraw
                   | reflexivity
                   | exfalso; apply Hn; simpl; tauto ]
           | ]).
    discriminate Hi.
Qed.

Lemma safeUUID_is_version_4_witness :
  length (safeUUID None (fun k => N.of_nat (k mod 16))) = 36.
Proof.
  apply (safeUUID_is_version_4 (fun k => N.of_nat (k mod 16))).
  intros k. pose proof (Nat.mod_upper_bound k 16). lia.
Defined.

Example safeUUID_sample :
  safeUUID None (fun k => N.of_nat (k mod 16))
  = js "01234567-89ab-4cde-b012-3456789abcde".
Proof. vm_compute. reflexivity. Qed.

(** ** The key handler *)

Lemma nonBlank_true_iff (s : jsstring) :
  nonBlank s = true <-> existsb (fun c => negb (isWhiteSpace c)) s = true.
Proof.
  destruct (nonBlank s) eqn:E.
  - split; [intros _|reflexivity].
    destruct (existsb _ s) eqn:Ex; [reflexivity|].
    assert (Hall : forallb isWhiteSpace s = true).
    { apply forallb_forall. intros c Hc.
      destruct (isWhiteSpace c) eqn:Hw; [reflexivity|].
      assert (Htrue : existsb (fun c => negb (isWhiteSpace c)) s = true).
      { apply existsb_exists. exists c. now rewrite Hw. }
      congruence. }
    apply nonBlank_false_iff in Hall. congruence.
  - split; [discriminate|]. intros Hex. exfalso.
    apply nonBlank_false_iff in E.
    apply existsb_exists in Hex as (c & Hc & Hw).
    rewrite forallb_forall in E. rewrite (E c Hc) in Hw. discriminate.
Qed.

(** X7.  [handleKeyDown] calls [onSubmit], with the identifier of its own
    row, exactly for Enter without Shift on a content that has a character
    other than white space; Shift+Enter and every other key leave the
    state as it is, whatever the content. *)
Theorem handleKeyDown_submits_iff {S} (key : Key) (shiftKey : bool)
    (row : ReasoningRow) (onSubmit : jsstring -> S -> S) (s : S) :
  (key = Enter -> shiftKey = false ->
   existsb (fun c => negb (isWhiteSpace c)) (content row) = true ->
   handleKeyDown key shiftKey row onSubmit s = onSubmit (id row) s)
  /\ (key <> Enter \/ shiftKey = true
      \/ existsb (fun c => negb (isWhiteSpace c)) (content row) = false ->
      handleKeyDown key shiftKey row onSubmit s = s).
Proof.
  split.
  - intros -> -> Hex. apply nonBlank_true_iff in Hex.
    unfold handleKeyDown. simpl. now rewrite Hex.
  - intros H. unfold handleKeyDown. destruct key; [|reflexivity].
    destruct shiftKey; [reflexivity|]. simpl.
    destruct (nonBlank (content row)) eqn:E; [|reflexivity].
    apply nonBlank_true_iff in E.
    destruct H as [H|[H|H]]; congruence.
Qed.

Lemma handleKeyDown_submits_iff_witness :
  handleKeyDown Enter false (openStep (js " x ")) submitRow
    (sessionWith [openStep (js " x ")])
  = submitRow (js "a") (sessionWith [openStep (js " x ")])
  /\ handleKeyDown Enter true (openStep (js " x ")) submitRow
       (sessionWith [openStep (js " x ")])
     = sessionWith [openStep (js " x ")].
Proof.
  split.
  - apply (handleKeyDown_submits_iff Enter false (openStep (js " x "))
             submitRow (sessionWith [openStep (js " x ")]));
      reflexivity.
  - apply (handleKeyDown_submits_iff Enter true (openStep (js " x "))
             submitRow (sessionWith [openStep (js " x ")])).
    right. left. reflexivity.
Defined.

(** ** Mounting *)

(** X8.  Without an API key the application renders the configuration
    error and stays as it was mounted: no control is offered, no call is
    in flight, no event of any kind can fire. *)
Theorem no_key_nothing_happens (trace : list Event) (s : AppState) :
  run trace (mount false) = Some s ->
  trace = [] /\ s = mount false /\ view s = ConfigurationError
  /\ loadingChallenges s = 0 /\ analyzing s = [] /\ grading s = [].
Proof.
  destruct trace as [|ev trace]; simpl.
  - intros [= <-]. auto 10.
  - destruct ev as [e|e]; [destruct e|destruct e as [w|[|k] w uuid|[|k] w]];
      discriminate.
Qed.

Lemma no_key_nothing_happens_witness :
  view (mount false) = ConfigurationError.
Proof.
  apply (no_key_nothing_happens [] (mount false)). reflexivity.
Defined.

(** X9.  With a key, the load of the challenges always ends, and then the
    cards of the landing view are the catalog that [getSuggestedChallenges]
    returned: a click on a card starts a session on its challenge, with one
    empty Active step numbered 1 and no result; where there is no card
    there is nothing to click. *)
Theorem load_then_start (w : World (list Challenge)) :
  exists data s,
    getSuggestedChallenges w = Returns data
    /\ loop (ChallengesSettle w) (mount true) = Some s
    /\ challenges s = data /\ isLoading s = false /\ view s = Landing
    /\ (forall idx challenge uuid,
          data !! idx = Some challenge ->
          exists s', ui (ClickChallenge idx uuid) s = Some s'
            /\ activeChallenge s' = Some challenge
            /\ sessionResult s' = None
            /\ view s' = Worksheet
            /\ rows s' = [ {| id := uuid; stepNumber := 1; content := [];
                              aiInterrogation := None; status := Active;
                              depthScore := None |} ])
    /\ (forall idx uuid,
          data !! idx = None -> ui (ClickChallenge idx uuid) s = None).
Proof.
  destruct (getSuggestedChallenges_returns w) as [data Hdata].
  assert (Hs : loaded (Returns data) (setLoadingChallenges 0 (mount true))
               = setIsLoading false
                   (setChallenges data (setLoadingChallenges 0 (mount true)))).
  { unfold loaded. destruct data; reflexivity. }
  exists data. eexists. split; [exact Hdata|].
  split.
  { unfold loop. change (loadingChallenges (mount true)) with 1.
    cbv beta iota zeta. rewrite Hdata. cbn [settled]. now rewrite Hs. }
  split; [reflexivity|]. split; [reflexivity|]. split; [reflexivity|]. split.
  - intros idx challenge uuid Hidx. eexists.
    unfold ui. simpl. rewrite Hidx. simpl. auto.
  - intros idx uuid Hidx. unfold ui. simpl. now rewrite Hidx.
Qed.

Lemma load_then_start_witness :
  exists data s,
    getSuggestedChallenges (slowWorld [sampleChallenge]) = Returns data
    /\ loop (ChallengesSettle (slowWorld [sampleChallenge])) (mount true)
       = Some s
    /\ challenges s = data.
Proof.
  destruct (load_then_start (slowWorld [sampleChallenge]))
    as (data & s & H1 & H2 & H3 & _).
  exists data, s. auto.
Defined.

(** ** Calls in flight *)

Lemma analyzingCount_app (l1 l2 : list ReasoningRow) :
  analyzingCount (l1 ++ l2) = analyzingCount l1 + analyzingCount l2.
Proof. unfold analyzingCount. now rewrite filter_app, length_app. Qed.

Lemma analyzingCount_done (done : list ReasoningRow) :
  Forall (fun r => status r = Completed) done -> analyzingCount done = 0.
Proof.
  unfold analyzingCount. induction 1 as [|r done Hr _ IH]; simpl.
  - reflexivity.
  - rewrite bool_decide_eq_false_2 by congruence. exact IH.
Qed.

(** X10.  In a session at most one critique is in flight, and a critique
    is in flight exactly while a step is Analyzing: the number of
    Analyzing steps is the number of critiques in flight, zero or one. *)
Theorem one_critique_at_a_time (s : AppState) :
  reachable s ->
  length (analyzing s) <= 1
  /\ analyzingCount (rows s) = length (analyzing s).
Proof.
  intros Hreach. apply Inv_reachable in Hreach. inv_cases Hreach.
  - rewrite Hrows, Han. auto.
  - rewrite Hrows, analyzingCount_app, analyzingCount_done by exact Hdone.
    unfold analyzingCount. simpl.
    destruct Hcrit as [[Hst Han]|(Hst & _ & call & Han & _)];
      rewrite Han, Hst; simpl; auto.
Qed.

Lemma one_critique_at_a_time_witness :
  analyzingCount (rows sampleState) = length (analyzing sampleState).
Proof.
  apply (one_critique_at_a_time sampleState).
  apply (reachable_run sampleTrace (mount true)).
  - apply reachable_mount.
  - reflexivity.
  - vm_compute. reflexivity.
Defined.

Lemma submitRow_keeps (s : AppState) (id0 : jsstring) :
  activeChallenge (submitRow id0 s) = activeChallenge s
  /\ isLoading (submitRow id0 s) = isLoading s
  /\ sessionResult (submitRow id0 s) = sessionResult s
  /\ grading (submitRow id0 s) = grading s.
Proof.
  unfold submitRow. destruct (find _ _); [|auto].
  destruct (activeChallenge s) eqn:E; [|auto].
  destruct (bool_decide _); simpl; auto.
Qed.

Lemma grading_flag_fire (ev : Event) (s s' : AppState) :
  Inv s -> grading_flag s -> sessionOp ev = true -> fire ev s = Some s' ->
  grading_flag s'.
Proof.
  intros HI Hflag Hop Hfire. unfold grading_flag in *.
  destruct ev as [e|e]; simpl in Hfire.
  - unfold ui in Hfire.
    destruct e as [idx uuid|idx value|idx key shiftKey| | |];
      try discriminate Hop.
    + destruct (view s) eqn:Hv; try discriminate.
      destruct (isLoading s && _) eqn:Hoff; [discriminate|].
      destruct (challenges s !! idx) as [ch|] eqn:Hidx; [|discriminate].
      injection Hfire as <-. simpl.
      inv_cases HI.
      * rewrite Hgr. right.
        destruct Hload as [(_ & Hnil & _)|[H _]]; [|exact H].
        rewrite Hnil in Hidx. discriminate.
      * unfold view in Hv. rewrite Hkey, Hc in Hv. simpl in Hv.
        destruct (sessionResult s); discriminate.
    + destruct (view s); try discriminate.
      destruct (rows s !! idx) as [row|]; [|discriminate].
      destruct (isLocked row); [discriminate|].
      injection Hfire as <-. exact Hflag.
    + destruct (view s); try discriminate.
      destruct (rows s !! idx) as [row|]; [|discriminate].
      destruct (isLocked row); [discriminate|].
      injection Hfire as <-. unfold handleKeyDown.
      destruct key; [|exact Hflag]. destruct (negb shiftKey); [|exact Hflag].
      destruct (nonBlank (content row)); [|exact Hflag].
      destruct (submitRow_keeps s (id row)) as (-> & -> & -> & ->).
      exact Hflag.
    + destruct (view s) eqn:Hv; try discriminate.
      destruct (finishDisabled s) eqn:Hdis; [discriminate|].
      injection Hfire as <-.
      apply orb_false_iff in Hdis as [Hload _].
      unfold view in Hv. destruct (negb (apiKey s)); [discriminate|].
      destruct (activeChallenge s) as [ch|] eqn:Hch; [|discriminate].
      destruct (sessionResult s) eqn:Hres; [discriminate|].
      unfold finishSession. rewrite Hch. simpl.
      destruct (grading s) as [|g [|g' gs]]; simpl.
      * rewrite Hres. auto.
      * destruct Hflag. congruence.
      * contradiction.
  - unfold loop in Hfire. destruct e as [w|k w uuid|k w].
    + destruct (loadingChallenges s) as [|n] eqn:Hl; [discriminate|].
      destruct (getSuggestedChallenges_returns w) as [data Hdata].
      rewrite Hdata in Hfire. simpl in Hfire. injection Hfire as <-.
      inv_cases HI; [|congruence].
      destruct (0 <? length data); simpl; rewrite Hgr; auto.
    + destruct (analyzing s !! k) as [call|]; [|discriminate].
      cbv zeta in Hfire.
      destruct (interrogateRow _ _ _ _); simpl in Hfire; [| |discriminate];
        injection Hfire as <-; exact Hflag.
    + destruct (grading s) as [|g [|g' gs]] eqn:Hgr; simpl in Hfire.
      * discriminate.
      * destruct k as [|k]; [|discriminate].
        change ([g] !! 0) with (Some g) in Hfire. cbv beta iota zeta in Hfire.
        destruct (evaluateSession w _ _); simpl in Hfire; [| |discriminate];
          injection Hfire as <-; simpl; rewrite Hgr; simpl; auto.
      * contradiction.
Qed.

Lemma grading_flag_reachable (s : AppState) : reachable s -> grading_flag s.
Proof.
  induction 1 as [key|ev s s' Hreach IH Hop Hfire].
  - destruct key; unfold grading_flag; simpl; auto.
  - apply (grading_flag_fire ev s s'); auto. now apply Inv_reachable.
Qed.

(** X11.  At most one grading is in flight, and in a session the loading
    flag is set exactly while one is: [finishSession] cannot be started a
    second time before the first evaluation has come back. *)
Theorem one_grading_at_a_time (s : AppState) :
  reachable s ->
  length (grading s) <= 1
  /\ (activeChallenge s <> None ->
      (isLoading s = true <-> length (grading s) = 1))
  /\ (length (grading s) = 1 -> ui ClickFinish s = None).
Proof.
  intros Hreach. apply grading_flag_reachable in Hreach.
  unfold grading_flag in Hreach.
  destruct (grading s) as [|g [|g' gs]]; simpl; [| |contradiction].
  - split; [lia|]. split; [|discriminate].
    intros Hc. destruct Hreach as [H|H]; [contradiction|].
    rewrite H. split; discriminate.
  - destruct Hreach as [Hload Hres]. split; [lia|]. split; [tauto|].
    intros _. unfold ui, finishDisabled. rewrite Hload. simpl.
    now destruct (view s).
Qed.

Lemma one_grading_at_a_time_witness :
  length (grading (finishSession sampleState2)) <= 1
  /\ ui ClickFinish (finishSession sampleState2) = None.
Proof.
  destruct (one_grading_at_a_time (finishSession sampleState2))
    as (H1 & _ & H3).
  - apply (reachable_run (sampleTrace ++ [secondCritique; User ClickFinish])
             (mount true)).
    + apply reachable_mount.
    + reflexivity.
    + vm_compute. reflexivity.
  - split; [exact H1|]. apply H3. reflexivity.
Defined.

(** ** The report *)



(** ** Steps with identifiers of their own *)

Lemma reachable_fresh_reachable (s : AppState) :
  reachable_fresh s -> reachable s.
Proof.
  induction 1 as [key|ev s s' _ IH Hop _ Hfire].
  - apply reachable_mount.
  - now apply (reachable_fire ev s).
Qed.

Lemma reachable_fresh_run (trace : list Event) (s s' : AppState) :
  reachable_fresh s -> run_fresh trace s = Some s' -> reachable_fresh s'.
Proof.
  revert s. induction trace as [|ev trace IH]; simpl; intros s Hs Hrun.
  - now injection Hrun as <-.
  - destruct (sessionOp ev && freshId ev s) eqn:Hok; [|discriminate].
    apply andb_true_iff in Hok as [Hop Hfresh].
    destruct (fire ev s) as [s1|] eqn:Hfire; [|discriminate].
    apply (IH s1); [|assumption]. now apply (reachable_fresh_fire ev s).
Qed.

Lemma map_id_kept (g : ReasoningRow -> ReasoningRow) (id0 : jsstring)
    (rs : list ReasoningRow) :
  (forall r, id (g r) = id r) ->
  map id (map (fun r => if str_eqb (id r) id0 then g r else r) rs)
  = map id rs.
Proof.
  intros Hg. rewrite map_map. apply map_ext. intros r.
  destruct (str_eqb (id r) id0); [apply Hg | reflexivity].
Qed.

Lemma submitRow_ids (s : AppState) (id0 : jsstring) :
  map id (rows (submitRow id0 s)) = map id (rows s).
Proof.
  unfold submitRow. destruct (find _ _); [|reflexivity].
  destruct (activeChallenge s); [|reflexivity].
  destruct (bool_decide _); [reflexivity|]. simpl. now apply map_id_kept.
Qed.

Lemma fire_ids (ev : Event) (s s' : AppState) :
  Inv s -> sessionOp ev = true -> fire ev s = Some s' ->
  map id (rows s') = map id (rows s)
  \/ (exists uuid, map id (rows s') = map id (rows s) ++ [uuid]
                   /\ (rows s = [] \/ exists k w, ev = Loop (CritiqueSettles k w uuid))).
Proof.
  intros HI Hop Hfire. destruct ev as [e|e]; simpl in Hfire.
  - unfold ui in Hfire.
    destruct e as [idx uuid|idx value|idx key shiftKey| | |];
      try discriminate Hop.
    + destruct (view s) eqn:Hv; try discriminate.
      destruct (isLoading s && _); [discriminate|].
      destruct (challenges s !! idx) as [ch|]; [|discriminate].
      injection Hfire as <-. right. exists uuid.
      inv_cases HI.
      * rewrite Hrows. simpl. auto.
      * unfold view in Hv. rewrite Hkey, Hc in Hv. simpl in Hv.
        destruct (sessionResult s); discriminate.
    + destruct (view s); try discriminate.
      destruct (rows s !! idx) as [row|]; [|discriminate].
      destruct (isLocked row); [discriminate|].
      injection Hfire as <-. left. simpl. now apply map_id_kept.
    + destruct (view s); try discriminate.
      destruct (rows s !! idx) as [row|]; [|discriminate].
      destruct (isLocked row); [discriminate|].
      injection Hfire as <-. left. unfold handleKeyDown.
      destruct key; [|reflexivity]. destruct (negb shiftKey); [|reflexivity].
      destruct (nonBlank (content row)); [|reflexivity].
      apply submitRow_ids.
    + destruct (view s); try discriminate.
      destruct (finishDisabled s); [discriminate|].
      injection Hfire as <-. left. unfold finishSession.
      now destruct (activeChallenge s).
  - unfold loop in Hfire. destruct e as [w|k w uuid|k w].
    + destruct (loadingChallenges s); [discriminate|].
      destruct (getSuggestedChallenges_returns w) as [data Hdata].
      rewrite Hdata in Hfire. simpl in Hfire. injection Hfire as <-.
      left. now destruct (0 <? length data).
    + destruct (analyzing s !! k) as [call|]; [|discriminate].
      cbv zeta in Hfire.
      destruct (interrogateRow _ _ _ _); simpl in Hfire; [| |discriminate];
        injection Hfire as <-; simpl.
      * right. exists uuid. rewrite map_app, map_id_kept by reflexivity.
        split; [reflexivity|]. right. eauto.
      * left. now apply map_id_kept.
    + destruct (grading s !! k) as [call|]; [|discriminate].
      cbv zeta in Hfire.
      destruct (evaluateSession _ _ _); simpl in Hfire; [| |discriminate];
        injection Hfire as <-; left; reflexivity.
Qed.

Lemma freshId_not_in (k : nat) (w : World Analysis) (uuid : jsstring)
    (s : AppState) :
  freshId (Loop (CritiqueSettles k w uuid)) s = true ->
  ~ In uuid (map id (rows s)).
Proof.
  simpl. intros Hfresh Hin. apply negb_true_iff in Hfresh.
  apply in_map_iff in Hin as (r & Hid & Hr).
  assert (Hex : existsb (fun r => str_eqb (id r) uuid) (rows s) = true).
  { apply existsb_exists. exists r. split; [exact Hr|]. now apply str_eqb_eq. }
  congruence.
Qed.

Lemma ids_distinct (s : AppState) :
  reachable_fresh s -> NoDup (map id (rows s)).
Proof.
  induction 1 as [key|ev s s' Hreach IH Hop Hfresh Hfire].
  - destruct key; constructor.
  - apply reachable_fresh_reachable, Inv_reachable in Hreach.
    destruct (fire_ids ev s s' Hreach Hop Hfire)
      as [->|(uuid & -> & [Hnil|(k & w & ->)])].
    + exact IH.
    + rewrite Hnil. simpl. apply NoDup_singleton.
    + apply list.NoDup_app. split; [exact IH|]. split.
      * intros x Hx Hin. apply list_elem_of_In in Hx.
        apply list_elem_of_In in Hin. destruct Hin as [<-|[]].
        now apply (freshId_not_in k w uuid s).
      * apply NoDup_singleton.
Qed.

Lemma find_by_own_id (rs : list ReasoningRow) (i : nat) (r : ReasoningRow) :
  NoDup (map id rs) -> rs !! i = Some r ->
  find (fun x => str_eqb (id x) (id r)) rs = Some r.
Proof.
  revert i. induction rs as [|x rs IH]; intros i Hnd Hi; [discriminate|].
  simpl in Hnd. apply list.NoDup_cons in Hnd as [Hx Hnd]. simpl.
  destruct i as [|i]; simpl in Hi.
  - injection Hi as ->.
    assert (H : str_eqb (id r) (id r) = true) by now apply str_eqb_eq.
    now rewrite H.
  - destruct (str_eqb (id x) (id r)) eqn:E; [|now apply (IH i)].
    apply str_eqb_eq in E. exfalso. apply Hx. rewrite E.
    apply list_elem_of_In, in_map. apply list_elem_of_In.
    eapply list_elem_of_lookup_2. exact Hi.
Qed.

(** X13.  When every identifier that [safeUUID] hands out is new, no two
    steps of a session have the same identifier, and looking a step up by
    its identifier, as [submitRow] does, finds that very step. *)
Theorem step_ids_are_distinct (s : AppState) :
  reachable_fresh s ->
  NoDup (map id (rows s))
  /\ (forall i r, rows s !! i = Some r ->
        find (fun x => str_eqb (id x) (id r)) (rows s) = Some r).
Proof.
  intros Hreach. apply ids_distinct in Hreach. split; [exact Hreach|].
  intros i r Hi. now apply (find_by_own_id (rows s) i).
Qed.

Lemma step_ids_are_distinct_witness : NoDup (map id (rows sampleState)).
Proof.
  apply (step_ids_are_distinct sampleState).
  apply (reachable_fresh_run sampleTrace (mount true)).
  - apply reachable_fresh_mount.
  - vm_compute. reflexivity.
Defined.

Lemma NoDup_ids_last (done : list ReasoningRow) (cur : ReasoningRow) :
  NoDup (map id (done ++ [cur])) -> Forall (fun r => id r <> id cur) done.
Proof.
  rewrite map_app. intros Hnd. apply list.NoDup_app in Hnd as (_ & Hdis & _).
  apply Forall_forall. intros r Hr Heq.
  apply (Hdis (id r)).
  - apply list_elem_of_In, in_map, Hr.
  - rewrite Heq. simpl. apply list_elem_of_In. now left.
Qed.

(** An unlocked row of a session is its current step. *)
Lemma unlocked_is_current (done : list ReasoningRow) (cur row : ReasoningRow)
    (idx : nat) :
  Forall (fun r => status r = Completed) done ->
  (done ++ [cur]) !! idx = Some row -> isLocked row = false -> row = cur.
Proof.
  intros Hdone Hidx Hlock.
  destruct (Nat.lt_ge_cases idx (length done)) as [Hlt|Hge].
  - rewrite lookup_app_l in Hidx by exact Hlt.
    rewrite Forall_forall in Hdone.
    assert (Hst : status row = Completed).
    { apply Hdone. apply list_elem_of_In. eapply list_elem_of_lookup_2.
      exact Hidx. }
    unfold isLocked in Hlock. rewrite Hst in Hlock. discriminate.
  - rewrite lookup_app_r in Hidx by exact Hge.
    destruct (idx - length done) as [|n]; [|discriminate].
    now injection Hidx.
Qed.

Lemma session_prefix_kept (ev : Event) (s s' : AppState)
    (done0 : list ReasoningRow) (cur0 : ReasoningRow) :
  Inv s -> rows s = done0 ++ [cur0] ->
  Forall (fun r => id r <> id cur0) done0 ->
  sessionOp ev = true -> fire ev s = Some s' ->
  exists tail, rows s' = done0 ++ tail.
Proof.
  intros HI Hrows0 Hfresh Hop Hfire.
  inv_cases HI; [rewrite Hrows in Hrows0; now destruct done0|].
  rewrite Hrows in Hrows0. apply app_inj_tail in Hrows0 as [<- <-].
  destruct ev as [e|e]; simpl in Hfire.
  - unfold ui in Hfire.
    destruct e as [idx uuid|idx value|idx key shiftKey| | |];
      try discriminate Hop.
    + unfold view in Hfire. rewrite Hkey, Hc in Hfire. simpl in Hfire.
      destruct (sessionResult s); discriminate.
    + destruct (view s); try discriminate.
      destruct (rows s !! idx) as [row|] eqn:Hidx; [|discriminate].
      destruct (isLocked row) eqn:Hlock; [discriminate|].
      injection Hfire as <-. rewrite Hrows in Hidx.
      rewrite (unlocked_is_current _ _ _ _ Hdone Hidx Hlock).
      simpl. rewrite Hrows, map_only_last by exact Hfresh. eauto.
    + destruct (view s); try discriminate.
      destruct (rows s !! idx) as [row|] eqn:Hidx; [|discriminate].
      destruct (isLocked row) eqn:Hlock; [discriminate|].
      injection Hfire as <-. rewrite Hrows in Hidx.
      rewrite (unlocked_is_current _ _ _ _ Hdone Hidx Hlock).
      unfold handleKeyDown.
      destruct key; [|rewrite Hrows; eauto].
      destruct (negb shiftKey); [|rewrite Hrows; eauto].
      destruct (nonBlank (content cur)); [|rewrite Hrows; eauto].
      unfold submitRow. destruct (find _ _); [|rewrite Hrows; eauto].
      rewrite Hc. destruct (bool_decide _); [rewrite Hrows; eauto|].
      simpl. rewrite Hrows, map_only_last by exact Hfresh. eauto.
    + destruct (view s); try discriminate.
      destruct (finishDisabled s); [discriminate|].
      injection Hfire as <-. unfold finishSession. rewrite Hc. simpl.
      rewrite Hrows. eauto.
  - unfold loop in Hfire. destruct e as [w|k w uuid|k w].
    + rewrite Hn in Hfire. discriminate.
    + destruct (analyzing s !! k) as [call|] eqn:Hk; [|discriminate].
      assert (Hid : call_id call = id cur).
      { destruct Hcrit as [[_ Han]|(_ & _ & call' & Han & Hid & _)];
          rewrite Han in Hk; [discriminate|].
        destruct k; [|discriminate]. now injection Hk as <-. }
      cbv zeta in Hfire.
      destruct (interrogateRow _ _ _ _); simpl in Hfire; [| |discriminate];
        injection Hfire as <-; simpl; rewrite Hid, Hrows,
          map_only_last by exact Hfresh.
      * rewrite <- app_assoc. eauto.
      * eauto.
    + destruct (grading s !! k) as [call|]; [|discriminate].
      cbv zeta in Hfire.
      destruct (evaluateSession _ _ _); simpl in Hfire; [| |discriminate];
        injection Hfire as <-; simpl; rewrite Hrows; eauto.
Qed.

(** X14.  No operation of a session removes a step or touches a completed
    one: after any event every step that was Completed is at its place
    with its content, critique and score as they were, and the list is as
    long as before or one step longer. *)
Theorem completed_steps_are_frozen (ev : Event) (s s' : AppState) :
  reachable_fresh s -> sessionOp ev = true -> fire ev s = Some s' ->
  (forall i r, rows s !! i = Some r -> status r = Completed ->
     rows s' !! i = Some r)
  /\ length (rows s) <= length (rows s') <= S (length (rows s)).
Proof.
  intros Hreach Hop Hfire.
  pose proof (ids_distinct s Hreach) as Hnd.
  apply reachable_fresh_reachable, Inv_reachable in Hreach.
  split.
  - intros i r Hi Hst. inv_cases Hreach; [rewrite Hrows in Hi; discriminate|].
    rewrite Hrows in Hnd. apply NoDup_ids_last in Hnd.
    destruct (session_prefix_kept ev s s' done cur) as [tail Htail];
      try assumption.
    { now apply (Inv_session s c done cur). }
    rewrite Hrows in Hi.
    destruct (Nat.lt_ge_cases i (length done)) as [Hlt|Hge].
    + rewrite lookup_app_l in Hi by exact Hlt.
      now rewrite Htail, lookup_app_l by exact Hlt.
    + rewrite lookup_app_r in Hi by exact Hge.
      destruct (i - length done); [|discriminate]. injection Hi as <-.
      now apply (critique_ok_not_completed s done) in Hcrit.
  - destruct (fire_ids ev s s' Hreach Hop Hfire) as [H|(uuid & H & _)];
      apply (f_equal (@length _)) in H;
      rewrite ?length_app, !length_map in H; simpl in H; lia.
Qed.

Lemma completed_steps_are_frozen_witness :
  length (rows sampleState) <= length (rows sampleState2)
  <= S (length (rows sampleState)).
Proof.
  apply (completed_steps_are_frozen secondCritique sampleState sampleState2).
  - apply (reachable_fresh_run sampleTrace (mount true)).
    + apply reachable_fresh_mount.
    + vm_compute. reflexivity.
  - reflexivity.
  - vm_compute. reflexivity.
Defined.

(** ** What is graded, and what a critique is given *)









(** ** Leaving a session with a critique in flight *)

(** X17.  The header's way back does not cancel a critique in flight.
    When the user leaves a session whose step is being analyzed and starts
    another one, the critique that then returns finds no step with its
    identifier and still appends its successor: the new session has two
    Active steps, its own first one and one numbered after the step of the
    session that was left. *)
Theorem leaving_keeps_the_critique (s : AppState) (k : nat)
    (call : CritiqueCall) (w : World Analysis) (analysis : Analysis)
    (idx : nat) (challenge : Challenge) (uuid1 uuid2 : jsstring) :
  view s = Worksheet ->
  analyzing s !! k = Some call ->
  challenges s !! idx = Some challenge ->
  interrogateRow w (content (call_row call)) (call_previousRows call)
    (call_challenge call) = Returns analysis ->
  uuid1 <> call_id call ->
  exists s',
    run [ User ClickLogo; User (ClickChallenge idx uuid1);
          Loop (CritiqueSettles k w uuid2) ] s = Some s'
    /\ activeChallenge s' = Some challenge
    /\ rows s'
       = [ {| id := uuid1; stepNumber := 1; content := [];
              aiInterrogation := None; status := Active;
              depthScore := None |};
           {| id := uuid2; stepNumber := stepNumber (call_row call) + 1;
              content := []; aiInterrogation := None; status := Active;
              depthScore := None |} ].
Proof.
  intros Hview Hk Hidx Hret Hneq.
  assert (Hkey : apiKey s = true).
  { unfold view in Hview. now destruct (apiKey s). }
  assert (Hch : challenges s <> []).
  { intros Hnil. rewrite Hnil in Hidx. discriminate. }
  assert (Hoff : isLoading s && (length (challenges s) =? 0) = false).
  { destruct (challenges s); [contradiction|]. apply andb_false_r. }
  eexists. split.
  - cbn [run fire]. unfold ui at 1. rewrite Hview.
    cbn [run fire]. unfold ui, view. cbn [apiKey activeChallenge setActiveChallenge
      isLoading challenges]. rewrite Hkey. cbn [negb].
    rewrite Hoff, Hidx.
    cbn [run fire]. unfold loop.
    cbn [analyzing startChallenge setRows setSessionResult
      setActiveChallenge]. rewrite Hk. cbv zeta. rewrite Hret.
    cbn [settled]. reflexivity.
  - split; [reflexivity|]. cbn.
    apply str_eqb_neq in Hneq. now rewrite Hneq.
Qed.

Lemma leaving_keeps_the_critique_witness :
  exists s',
    run [ User ClickLogo; User (ClickChallenge 1 (js "x"));
          Loop (CritiqueSettles 0 (sampleWorld hashRing) (js "c")) ]
      sampleState = Some s'
    /\ map status (rows s') = [Active; Active].
Proof.
  destruct (leaving_keeps_the_critique sampleState 0 sampleCall
              (sampleWorld hashRing) hashRing 1
              (hd sampleChallenge (tl FALLBACK_CHALLENGES))
              (js "x") (js "c"))
    as (s' & Hrun & _ & Hrows).
  - reflexivity.
  - vm_compute. reflexivity.
  - reflexivity.
  - reflexivity.
  - discriminate.
  - exists s'. split; [exact Hrun|]. now rewrite Hrows.
Defined.

(** ** The end of a grading *)



(** ** Restarting *)

Lemma Inv_steps (s : AppState) :
  Inv s ->
  positions_ok (rows s) /\ earlier_completed (rows s) /\ last_open (rows s).
Proof.
  intros HI. inv_cases HI.
  - rewrite Hrows. repeat split.
    + intros i r Hr. discriminate.
    + intros r Hr. discriminate.
  - split; [exact Hpos|]. rewrite Hrows. split.
    + intros i r Hr Hi. rewrite length_app in Hi. simpl in Hi.
      rewrite lookup_app_l in Hr by lia.
      rewrite Forall_forall in Hdone. apply Hdone.
      apply list_elem_of_In. eapply list_elem_of_lookup_2. exact Hr.
    + intros r Hr. rewrite length_app in Hr. simpl in Hr.
      replace (length done + 1 - 1) with (length done + 0) in Hr by lia.
      rewrite lookup_app_r in Hr by lia.
      replace (length done + 0 - length done) with 0 in Hr by lia.
      injection Hr as <-. now apply (critique_ok_status s done).
Qed.

Lemma Inv_run (trace : list Event) (s s' : AppState) :
  Inv s -> forallb sessionOp trace = true -> run trace s = Some s' -> Inv s'.
Proof.
  revert s. induction trace as [|ev trace IH]; simpl; intros s HI Hops Hrun.
  - now injection Hrun as <-.
  - apply andb_true_iff in Hops as [Hop Hops].
    destruct (fire ev s) as [s1|] eqn:Hfire; [|discriminate].
    apply (IH s1); [|assumption..]. now apply (Inv_fire ev s).
Qed.

(** X19.  Restarting from the report when no critique is in flight is a
    clean start: the landing view is shown with the same cards, the steps
    and the report are gone, and in whatever the four operations do from
    there the steps are again numbered 1, 2, ..., all completed but the
    last, which is Active or Analyzing. *)
Theorem restart_when_quiet (s : AppState) :
  reachable s -> view s = Report -> analyzing s = [] ->
  exists s',
    ui ClickRestart s = Some s'
    /\ view s' = Landing /\ rows s' = [] /\ sessionResult s' = None
    /\ challenges s' = challenges s
    /\ (forall trace s'',
          forallb sessionOp trace = true -> run trace s' = Some s'' ->
          positions_ok (rows s'') /\ earlier_completed (rows s'')
          /\ last_open (rows s'')).
Proof.
  intros Hreach Hview Han0.
  pose proof (grading_flag_reachable s Hreach) as Hflag.
  apply Inv_reachable in Hreach. unfold grading_flag in Hflag.
  assert (Hkey0 : apiKey s = true).
  { unfold view in Hview. now destruct (apiKey s). }
  inv_cases Hreach.
  { unfold view in Hview. rewrite Hkey0, Hc in Hview. discriminate. }
  assert (Hres : sessionResult s <> None).
  { unfold view in Hview. rewrite Hkey, Hc in Hview. simpl in Hview.
    destruct (sessionResult s); [discriminate|discriminate]. }
  assert (Hquiet : grading s = [] /\ isLoading s = false).
  { rewrite Hc in Hflag.
    destruct (grading s) as [|g [|g' gs]]; [|destruct Hflag; congruence|easy].
    destruct Hflag; [discriminate|auto]. }
  destruct Hquiet as [Hgr Hload].
  exists (onRestart s). split; [unfold ui; now rewrite Hview|].
  split; [unfold view; simpl; now rewrite Hkey|].
  split; [reflexivity|]. split; [reflexivity|]. split; [reflexivity|].
  intros trace s'' Hops Hrun. apply Inv_steps.
  apply (Inv_run trace (onRestart s)); [|assumption..].
  apply Inv_landing; simpl; auto.
Qed.

Lemma restart_when_quiet_witness :
  exists s', ui ClickRestart reportState = Some s' /\ view s' = Landing.
Proof.
  destruct (restart_when_quiet reportState) as (s' & H1 & H2 & _).
  - apply (reachable_run reportTrace (mount true)).
    + apply reachable_mount.
    + reflexivity.
    + vm_compute. reflexivity.
  - reflexivity.
  - reflexivity.
  - exists s'. auto.
Defined.
